(** * KVideo: search-lifecycle controller and facet-filter hooks

    A shallow embedding of the three React hooks of the repository

      - [useSourceBadges]  (src/lib/hooks/useSourceBadges.ts)
      - [useTypeBadges]    (src/unnamed/part_001)
      - [useHomePage]      (src/unnamed/part_000)

    JavaScript values are modelled as the code uses them: a string is its
    sequence of UTF-16 code units, a [Set<string>] is the duplicate-free list
    of its elements in insertion order, a [Map<string, number>] is an
    association list in insertion order, an optional field is an [option].
    The hooks' state ([useState], [useRef]) is an explicit record, a handler
    or effect is a function from the state before it to the state after it,
    and calls to the external search engine and router are recorded in a
    trace.  The generic item type [T] of the badge hooks is a type variable
    with the accessors the hooks read; types declared outside the three
    files ([SourceBadge], [SortOption], the settings' sources, the search
    results) are type variables too. *)

From Stdlib Require Import Ascii String.
From Stdlib Require Import List Bool Arith NArith ZArith Lia Permutation Sorted.
Import ListNotations.

Set Implicit Arguments.

(* ================================================================== *)
(** ** JavaScript strings *)

Module JsString.

(** A UTF-16 code unit. *)
Definition code_unit := N.

(** A JavaScript string value. *)
Definition t := list code_unit.

Fixpoint eqb (a b : t) : bool :=
  match a, b with
  | [], [] => true
  | x :: a', y :: b' => N.eqb x y && eqb a' b'
  | _, _ => false
  end.

(** [ToBoolean] on a string: only the empty string is falsy. *)
Definition truthy (s : t) : bool :=
  match s with
  | [] => false
  | _ :: _ => true
  end.

(** ECMAScript [WhiteSpace] and [LineTerminator] code points, the ones
    [String.prototype.trim] strips.  All of them lie in the BMP, so each is
    one code unit. *)
Definition is_white_space (c : code_unit) : bool :=
  let n := c in
  (N.eqb n 9 || N.eqb n 10 || N.eqb n 11 || N.eqb n 12 || N.eqb n 13 ||
   N.eqb n 32 || N.eqb n 160 || N.eqb n 5760 ||
   (N.leb 8192 n && N.leb n 8202) ||
   N.eqb n 8232 || N.eqb n 8233 || N.eqb n 8239 || N.eqb n 8287 ||
   N.eqb n 12288 || N.eqb n 65279)%bool.

Fixpoint trimStart (s : t) : t :=
  match s with
  | [] => []
  | c :: s' => if is_white_space c then trimStart s' else s
  end.

Definition trimEnd (s : t) : t := rev (trimStart (rev s)).

(** [s.trim()] *)
Definition trim (s : t) : t := trimEnd (trimStart s).

(** [s.split(sep)] for a one-code-unit separator: never returns the empty
    array; the empty string splits into one empty segment. *)
Fixpoint split (sep : code_unit) (s : t) : list t :=
  match s with
  | [] => [[]]
  | c :: s' =>
      if N.eqb c sep then [] :: split sep s'
      else match split sep s' with
           | seg :: segs => (c :: seg) :: segs
           | [] => [[c]]
           end
  end.

(** [arr.join(sep)] *)
Fixpoint join (sep : code_unit) (l : list t) : t :=
  match l with
  | [] => []
  | [x] => x
  | x :: l' => x ++ sep :: join sep l'
  end.

(** The separator [','] of the URL facet parameters. *)
Definition comma : code_unit := 44%N.

(** A string is blank when every code unit of it is white space (the empty
    string included). *)
Definition blank (s : t) : bool := forallb is_white_space s.

(** String literals for examples: one code unit per ASCII character. *)
Fixpoint of_string (s : String.string) : t :=
  match s with
  | String.EmptyString => []
  | String.String c s' => Ascii.N_of_ascii c :: of_string s'
  end.

End JsString.

Definition jsstring : Type := JsString.t.

(* ================================================================== *)
(** ** JavaScript [Set<string>] *)

Module JsSet.

(** The elements in insertion order.  A value built by the operations below
    from [empty] has no duplicates ([wf]). *)
Definition t := list jsstring.

Definition wf (s : t) : Prop := NoDup s.

Definition empty : t := [].

(** [s.has(x)] *)
Definition has (x : jsstring) (s : t) : bool := existsb (JsString.eqb x) s.

(** [s.add(x)]: appended at the end unless present. *)
Definition add (x : jsstring) (s : t) : t :=
  if has x s then s else s ++ [x].

(** [s.delete(x)] *)
Definition delete (x : jsstring) (s : t) : t :=
  filter (fun y => negb (JsString.eqb x y)) s.

(** [s.size] *)
Definition size (s : t) : nat := length s.

(** [new Set(iterable)]: adds the elements one by one. *)
Definition of_array (l : list jsstring) : t :=
  fold_left (fun s x => add x s) l empty.

(** [Array.from(s)] *)
Definition to_array (s : t) : list jsstring := s.

(** Two sets are equal as sets when they have the same members. *)
Definition equiv (s1 s2 : t) : Prop := forall x, has x s1 = has x s2.

End JsSet.

(* ================================================================== *)
(** ** The facet-selection logic shared by both badge hooks

    [useSourceBadges] and [useTypeBadges] carry the same code for the URL
    parameter, the toggle and the auto-cleanup, over the parameter names
    ['sources'] and ['types']. *)

Module Facet.

(** [param.split(',').filter(Boolean)] *)
Definition segments (param : jsstring) : list jsstring :=
  filter JsString.truthy (JsString.split JsString.comma param).

(** Initial state of [useState]: [searchParams.get(key)] parsed. *)
Definition initFromUrl (param : option jsstring) : JsSet.t :=
  match param with
  | Some p => if JsString.truthy p then JsSet.of_array (segments p)
              else JsSet.empty
  | None => JsSet.empty
  end.

(** The value the sync effect writes: [Some p] for
    [currentParams.set(key, p)], [None] for [currentParams.delete(key)]. *)
Definition urlParamOf (selected : JsSet.t) : option jsstring :=
  let param := JsString.join JsString.comma (JsSet.to_array selected) in
  if JsString.truthy param then Some param else None.

(** The set the URL-change effect parses. *)
Definition urlSet (param : option jsstring) : JsSet.t :=
  JsSet.of_array
    (match param with
     | Some p => if JsString.truthy p then segments p else []
     | None => []
     end).

(** The URL-change effect: [Some u] when it calls the state setter with
    [u], [None] when it does not call it. *)
Definition urlChangeUpdate (param : option jsstring) (selected : JsSet.t)
  : option JsSet.t :=
  let urlS := urlSet param in
  let currentArr := JsSet.to_array selected in
  let urlArr := JsSet.to_array urlS in
  if negb (length currentArr =? length urlArr)
     || negb (forallb (fun s => JsSet.has s urlS) currentArr)
  then Some urlS
  else None.

(** The selection after the URL-change effect. *)
Definition urlChange (param : option jsstring) (selected : JsSet.t) : JsSet.t :=
  match urlChangeUpdate param selected with
  | Some u => u
  | None => selected
  end.

(** The state updater of [toggleSource] / [toggleType]. *)
Definition toggle (value : jsstring) (prev : JsSet.t) : JsSet.t :=
  let newSet := JsSet.of_array (JsSet.to_array prev) in
  if JsSet.has value newSet then JsSet.delete value newSet
  else JsSet.add value newSet.

(** The auto-cleanup effect over the identifiers of the available list. *)
Definition autoCleanup (availableIds : list jsstring) (prev : JsSet.t)
  : JsSet.t :=
  if length availableIds =? 0 then prev
  else
    let available := JsSet.of_array availableIds in
    let filtered :=
      JsSet.of_array
        (filter (fun x => JsSet.has x available) (JsSet.to_array prev)) in
    if negb (JsSet.size filtered =? JsSet.size prev) then filtered else prev.

End Facet.

(* ================================================================== *)
(** ** JavaScript [Map<string, number>] and [Array.prototype.sort] *)

Module JsMap.

(** The entries in insertion order, one per key. *)
Definition t := list (jsstring * nat).

Definition empty : t := [].

(** [m.get(k)]; [None] is [undefined]. *)
Fixpoint get (k : jsstring) (m : t) : option nat :=
  match m with
  | [] => None
  | (k', v) :: m' => if JsString.eqb k k' then Some v else get k m'
  end.

(** [m.set(k, v)]: an existing key keeps its place, a new one goes last. *)
Fixpoint set (k : jsstring) (v : nat) (m : t) : t :=
  match m with
  | [] => [(k, v)]
  | (k', v') :: m' =>
      if JsString.eqb k k' then (k, v) :: m' else (k', v') :: set k v m'
  end.

(** [Array.from(m.entries())] *)
Definition entries (m : t) : list (jsstring * nat) := m.

(** [x || 0] on the result of [get]: [undefined] and [0] both give [0]. *)
Definition orZero (x : option nat) : nat :=
  match x with
  | Some n => n
  | None => 0
  end.

End JsMap.

Module JsArray.

Section Sort.
Variable A : Type.
Variable compareFn : A -> A -> Z.

(** [x] goes before the first element it does not have to follow. *)
Fixpoint insert (x : A) (l : list A) : list A :=
  match l with
  | [] => [x]
  | y :: l' => if (0 <? compareFn x y)%Z then y :: insert x l' else x :: l
  end.

(** [arr.sort(compareFn)]: the stable sort (ECMAScript 2019), here by
    insertion from the right, so equal elements keep their order. *)
Fixpoint sort (l : list A) : list A :=
  match l with
  | [] => []
  | x :: l' => insert x (sort l')
  end.

End Sort.

End JsArray.

(* ================================================================== *)
(** ** [useSourceBadges] *)

Module UseSourceBadges.

Section Hook.
(** [T extends { source?: string; sourceName?: string }] *)
Variable T : Type.
Variable source : T -> option jsstring.
(** [SourceBadge] of [@/lib/types]; the hook reads its [id] only. *)
Variable SourceBadge : Type.
Variable id : SourceBadge -> jsstring.

Definition filteredVideos (videos : list T) (selectedSources : JsSet.t)
  : list T :=
  if JsSet.size selectedSources =? 0 then videos
  else
    filter
      (fun video =>
         match source video with
         | Some s => JsString.truthy s && JsSet.has s selectedSources
         | None => false
         end)
      videos.

Definition toggleSource (sourceId : jsstring) (prev : JsSet.t) : JsSet.t :=
  Facet.toggle sourceId prev.

Definition autoCleanup (availableSources : list SourceBadge) (prev : JsSet.t)
  : JsSet.t :=
  Facet.autoCleanup (map id availableSources) prev.

End Hook.

End UseSourceBadges.

(* ================================================================== *)
(** ** [useTypeBadges] *)

Module UseTypeBadges.

Record TypeBadge : Type := { type : jsstring; count : nat }.

Section Hook.
(** [T extends { type_name?: string }] *)
Variable T : Type.
Variable type_name : T -> option jsstring.

(** The body of [videos.forEach] in [typeBadges]. *)
Definition countVideo (typeMap : JsMap.t) (video : T) : JsMap.t :=
  match type_name video with
  | Some tn =>
      if JsString.truthy tn && JsString.truthy (JsString.trim tn) then
        let ty := JsString.trim tn in
        JsMap.set ty (JsMap.orZero (JsMap.get ty typeMap) + 1) typeMap
      else typeMap
  | None => typeMap
  end.

Definition typeMapOf (videos : list T) : JsMap.t :=
  fold_left countVideo videos JsMap.empty.

Definition typeBadges (videos : list T) : list TypeBadge :=
  JsArray.sort
    (fun a b => (Z.of_nat (count b) - Z.of_nat (count a))%Z)
    (map (fun e => {| type := fst e; count := snd e |})
         (JsMap.entries (typeMapOf videos))).

Definition filteredVideos (videos : list T) (selectedTypes : JsSet.t)
  : list T :=
  if JsSet.size selectedTypes =? 0 then videos
  else
    filter
      (fun video =>
         match type_name video with
         | Some tn =>
             JsString.truthy tn && JsSet.has (JsString.trim tn) selectedTypes
         | None => false
         end)
      videos.

Definition toggleType (ty : jsstring) (prev : JsSet.t) : JsSet.t :=
  Facet.toggle ty prev.

Definition autoCleanup (badges : list TypeBadge) (prev : JsSet.t) : JsSet.t :=
  Facet.autoCleanup (map type badges) prev.

End Hook.

End UseTypeBadges.

(* ================================================================== *)
(** ** [useHomePage] *)

(** What [settingsStore.getSettings()] returns, as far as the hook reads
    it.  The element type of [sources] and [SortOption] belong to the
    settings store. *)
Module Settings.
Record t (Source SortOption : Type) : Type :=
  { sources : list Source; sortBy : SortOption }.
End Settings.

(** What [loadFromCache()] returns when it is not [null]. *)
Module Cached.
Record t (Result AvailableSource : Type) : Type :=
  { query : jsstring;
    results : list Result;
    availableSources : list AvailableSource }.
End Cached.

Module UseHomePage.

Section Controller.
Variable SortOption : Type.
Variable sortEqb : SortOption -> SortOption -> bool.
Variable Source : Type.
Variable enabled : Source -> bool.
Variable Result : Type.
Variable AvailableSource : Type.

(** Calls the hook makes on the search engine ([useParallelSearch]) and on
    the router. *)
Inductive Call : Type :=
| PerformSearch (searchQuery : jsstring) (enabledSources : list Source)
    (sortBy : SortOption)
| LoadCachedResults (results : list Result)
    (availableSources : list AvailableSource)
| ApplySorting (sortBy : SortOption)
| ResetSearch
| RouterReplace (url : jsstring).

(** The hook's own state: the three [useState] cells, the two [useRef]
    cells, and the calls made so far, oldest first. *)
Record State : Type :=
  { query : jsstring;
    hasSearched : bool;
    currentSortBy : SortOption;
    hasLoadedCache : bool;
    hasSearchedWithSourcesRef : bool;
    calls : list Call }.

(** A handler is a state transformer with a result. *)
Definition M (A : Type) : Type := State -> A * State.

Definition ret {A : Type} (a : A) : M A := fun st => (a, st).

Definition bind {A B : Type} (m : M A) (k : A -> M B) : M B :=
  fun st => let (a, st') := m st in k a st'.

Notation "x <- m ;; k" := (bind m (fun x => k))
  (at level 61, m at next level, right associativity).
Notation "m ;; k" := (bind m (fun _ => k))
  (at level 61, right associativity).

Definition getState : M State := fun st => (st, st).

Definition setQuery (q : jsstring) : M unit := fun st =>
  (tt, {| query := q; hasSearched := hasSearched st;
          currentSortBy := currentSortBy st;
          hasLoadedCache := hasLoadedCache st;
          hasSearchedWithSourcesRef := hasSearchedWithSourcesRef st;
          calls := calls st |}).

Definition setHasSearched (b : bool) : M unit := fun st =>
  (tt, {| query := query st; hasSearched := b;
          currentSortBy := currentSortBy st;
          hasLoadedCache := hasLoadedCache st;
          hasSearchedWithSourcesRef := hasSearchedWithSourcesRef st;
          calls := calls st |}).

Definition setCurrentSortBy (o : SortOption) : M unit := fun st =>
  (tt, {| query := query st; hasSearched := hasSearched st;
          currentSortBy := o;
          hasLoadedCache := hasLoadedCache st;
          hasSearchedWithSourcesRef := hasSearchedWithSourcesRef st;
          calls := calls st |}).

Definition setHasLoadedCache (b : bool) : M unit := fun st =>
  (tt, {| query := query st; hasSearched := hasSearched st;
          currentSortBy := currentSortBy st;
          hasLoadedCache := b;
          hasSearchedWithSourcesRef := hasSearchedWithSourcesRef st;
          calls := calls st |}).

Definition setHasSearchedWithSources (b : bool) : M unit := fun st =>
  (tt, {| query := query st; hasSearched := hasSearched st;
          currentSortBy := currentSortBy st;
          hasLoadedCache := hasLoadedCache st;
          hasSearchedWithSourcesRef := b;
          calls := calls st |}).

Definition call (c : Call) : M unit := fun st =>
  (tt, {| query := query st; hasSearched := hasSearched st;
          currentSortBy := currentSortBy st;
          hasLoadedCache := hasLoadedCache st;
          hasSearchedWithSourcesRef := hasSearchedWithSourcesRef st;
          calls := calls st ++ [c] |}).

(** The state of a fresh mount. *)
Definition initialState (defaultSort : SortOption) : State :=
  {| query := []; hasSearched := false; currentSortBy := defaultSort;
     hasLoadedCache := false; hasSearchedWithSourcesRef := false;
     calls := [] |}.

Definition executeSearch (settings : Settings.t Source SortOption)
  (searchQuery : jsstring) : M bool :=
  if negb (JsString.truthy (JsString.trim searchQuery)) then ret false
  else
    let enabledSources := filter enabled (Settings.sources settings) in
    if length enabledSources =? 0 then ret false
    else
      call (PerformSearch searchQuery enabledSources
              (Settings.sortBy settings)) ;;
      setHasSearchedWithSources true ;;
      ret true.

(** The effect that re-sorts when the sort preference changes; [nresults]
    is [results.length]. *)
Definition resortEffect (nresults : nat) : M unit :=
  st <- getState ;;
  if hasSearched st && (0 <? nresults)
  then call (ApplySorting (currentSortBy st))
  else ret tt.

(** [updateSettings] as the settings-subscription effect creates it: a
    closure over the [query], [currentSortBy] and [loading] of the render
    the effect ran in.  The latch is a ref and is read when the callback
    runs. *)
Definition updateSettingsCallback (capturedQuery : jsstring)
  (capturedSortBy : SortOption) (loading : bool)
  (settings : Settings.t Source SortOption) : M unit :=
  (if negb (sortEqb (Settings.sortBy settings) capturedSortBy)
   then setCurrentSortBy (Settings.sortBy settings) else ret tt) ;;
  let enabledSources := filter enabled (Settings.sources settings) in
  let hasSources := 0 <? length enabledSources in
  st <- getState ;;
  if JsString.truthy capturedQuery && hasSources
     && negb (hasSearchedWithSourcesRef st) && negb loading
  then
    ok <- executeSearch settings capturedQuery ;;
    if ok then setHasSearched true else ret tt
  else ret tt.

(** [updateSettings] through the callback of an effect run on the current
    state: the initial call of the effect, and every notification that
    arrives after the effect has re-run on the latest [query],
    [currentSortBy] and [loading]. *)
Definition updateSettings (settings : Settings.t Source SortOption)
  (loading : bool) : M unit :=
  st <- getState ;;
  updateSettingsCallback (query st) (currentSortBy st) loading settings.

Definition handleSearch (settings : Settings.t Source SortOption)
  (searchQuery : jsstring) : M unit :=
  if negb (JsString.truthy (JsString.trim searchQuery)) then ret tt
  else
    setQuery searchQuery ;;
    setHasSearched true ;;
    _ <- executeSearch settings searchQuery ;;
    ret tt.

(** The cache-restoration effect; [urlQuery] is [searchParams.get('q')]
    and [cached] is [loadFromCache()]. *)
Definition loadCacheEffect (settings : Settings.t Source SortOption)
  (urlQuery : option jsstring)
  (cached : option (Cached.t Result AvailableSource)) : M unit :=
  st <- getState ;;
  if hasLoadedCache st then ret tt
  else
    setHasLoadedCache true ;;
    match urlQuery with
    | Some q =>
        if JsString.truthy q then
          setQuery q ;;
          match cached with
          | Some c =>
              if JsString.eqb (Cached.query c) q
                 && (0 <? length (Cached.results c))
              then
                setHasSearched true ;;
                call (LoadCachedResults (Cached.results c)
                        (Cached.availableSources c)) ;;
                setHasSearchedWithSources true
              else handleSearch settings q
          | None => handleSearch settings q
          end
        else ret tt
    | None => ret tt
    end.

Definition handleReset : M unit :=
  setHasSearched false ;;
  setQuery [] ;;
  setHasSearchedWithSources false ;;
  call ResetSearch ;;
  call (RouterReplace (JsString.of_string "/"%string)).

(** Whether a trace holds a [performSearch] call. *)
Definition isPerformSearch (c : Call) : bool :=
  match c with
  | PerformSearch _ _ _ => true
  | _ => false
  end.

End Controller.

End UseHomePage.

(* ================================================================== *)
(** ** [URLSearchParams] and the URL effects of the hooks *)

Module UrlSearchParams.

(** A surrogate code unit, leading (U+D800..U+DBFF) or trailing
    (U+DC00..U+DFFF). *)
Definition isLeadSurrogate (c : JsString.code_unit) : bool :=
  N.leb 55296 c && N.leb c 56319.

Definition isTrailSurrogate (c : JsString.code_unit) : bool :=
  N.leb 56320 c && N.leb c 57343.

(** U+FFFD, the replacement character. *)
Definition replacement : JsString.code_unit := 65533%N.

(** The conversion of a string argument to a [USVString]: a surrogate that
    is not part of a lead-trail pair becomes U+FFFD. *)
Fixpoint toUSVString (s : jsstring) : jsstring :=
  match s with
  | [] => []
  | c :: s' =>
      if isLeadSurrogate c then
        match s' with
        | d :: s'' =>
            if isTrailSurrogate d then c :: d :: toUSVString s''
            else replacement :: toUSVString s'
        | [] => [replacement]
        end
      else if isTrailSurrogate c then replacement :: toUSVString s'
      else c :: toUSVString s'
  end.

(** [s.isWellFormed()]: no surrogate outside a lead-trail pair. *)
Fixpoint isWellFormed (s : jsstring) : bool :=
  match s with
  | [] => true
  | c :: s' =>
      if isLeadSurrogate c then
        match s' with
        | d :: s'' => isTrailSurrogate d && isWellFormed s''
        | [] => false
        end
      else negb (isTrailSurrogate c) && isWellFormed s'
  end.

(** The name-value pairs of a query string, in order.  Names and values
    are [USVString]s; copying through
    [new URLSearchParams(params.toString())] gives the same pairs. *)
Definition t := list (jsstring * jsstring).

(** The first value under a name already converted. *)
Fixpoint lookup (name : jsstring) (params : t) : option jsstring :=
  match params with
  | [] => None
  | (k, v) :: params' =>
      if JsString.eqb name k then Some v else lookup name params'
  end.

(** Every pair under a name already converted, removed. *)
Definition remove (name : jsstring) (params : t) : t :=
  filter (fun e => negb (JsString.eqb name (fst e))) params.

(** The first pair under the name takes the value and the others are
    removed; without one, the pair goes last. *)
Fixpoint replace (name value : jsstring) (params : t) : t :=
  match params with
  | [] => [(name, value)]
  | (k, v) :: params' =>
      if JsString.eqb name k then (name, value) :: remove name params'
      else (k, v) :: replace name value params'
  end.

(** [params.get(name)]; [None] is [null]. *)
Definition get (name : jsstring) (params : t) : option jsstring :=
  lookup (toUSVString name) params.

(** [params.delete(name)] *)
Definition delete (name : jsstring) (params : t) : t :=
  remove (toUSVString name) params.

(** [params.set(name, value)] *)
Definition set (name value : jsstring) (params : t) : t :=
  replace (toUSVString name) (toUSVString value) params.

End UrlSearchParams.

Module UrlSync.

Definition sourcesKey : jsstring := JsString.of_string "sources".

Definition typesKey : jsstring := JsString.of_string "types".

Definition qKey : jsstring := JsString.of_string "q".

(** The sync effect of a badge hook over its parameter name.  Returns the
    new value of [isInitialMount.current] and, when the effect calls
    [router.replace], the parameters of the URL it navigates to (the path
    stays [pathname]). *)
Definition syncEffect (key : jsstring) (isInitialMount : bool)
  (searchParams : UrlSearchParams.t) (selected : JsSet.t)
  : bool * option UrlSearchParams.t :=
  if isInitialMount then (false, None)
  else
    let currentParams := searchParams in
    let param := JsString.join JsString.comma (JsSet.to_array selected) in
    (isInitialMount,
     Some (if JsString.truthy param
           then UrlSearchParams.set key param currentParams
           else UrlSearchParams.delete key currentParams)).

(** The initial selection of a badge hook under the URL's parameters. *)
Definition initialSelection (key : jsstring) (searchParams : UrlSearchParams.t)
  : JsSet.t :=
  Facet.initFromUrl (UrlSearchParams.get key searchParams).

(** The URL-change effect of a badge hook under the URL's parameters. *)
Definition urlChangeEffect (key : jsstring) (searchParams : UrlSearchParams.t)
  (selected : JsSet.t) : option JsSet.t :=
  Facet.urlChangeUpdate (UrlSearchParams.get key searchParams) selected.

(** The two effects of a badge hook that have [searchParams] among their
    dependencies, as they run after a change of the URL parameters: the
    sync effect, declared first, and the URL-change effect, both over the
    selection of that render. *)
Definition effectsOnUrlChange (key : jsstring) (isInitialMount : bool)
  (searchParams : UrlSearchParams.t) (selected : JsSet.t)
  : (bool * option UrlSearchParams.t) * option JsSet.t :=
  (syncEffect key isInitialMount searchParams selected,
   urlChangeEffect key searchParams selected).

(** [onUrlUpdate] of [useHomePage]: the parameters of the URL it navigates
    to, from those of [window.location.search]. *)
Definition onUrlUpdate (q : jsstring) (location : UrlSearchParams.t)
  : UrlSearchParams.t :=
  if JsString.truthy q then UrlSearchParams.set qKey q location
  else UrlSearchParams.delete qKey location.

End UrlSync.

(* ================================================================== *)
(** ** The home page (src/app/page.tsx): which panels are rendered *)

Module Page.

(** [results.length >= 1 || (!loading && results.length > 0)] *)
Definition showsSearchResults (loading : bool) (nresults : nat) : bool :=
  (1 <=? nresults) || (negb loading && (0 <? nresults)).

(** [!loading && !hasSearched] *)
Definition showsPopularFeatures (loading hasSearched : bool) : bool :=
  negb loading && negb hasSearched.

(** [!loading && hasSearched && results.length === 0] *)
Definition showsNoResults (loading hasSearched : bool) (nresults : nat) : bool :=
  negb loading && hasSearched && (nresults =? 0).

End Page.

(* ================================================================== *)
(** ** Vocabulary of the statements and sample data *)

Module Item.

Section Items.
Variable T : Type.
Variable type_name : T -> option jsstring.

(** The type facet value of an item: its [type_name], trimmed. *)
Definition typeValue (video : T) : option jsstring :=
  option_map JsString.trim (type_name video).

(** Whether the type facet value of the item is [ty]. *)
Definition hasType (ty : jsstring) (video : T) : bool :=
  match typeValue video with
  | Some ty' => JsString.eqb ty' ty
  | None => false
  end.

(** Whether the item has a [type_name] that is not blank. *)
Definition typed (video : T) : bool :=
  match type_name video with
  | Some tn => negb (JsString.blank tn)
  | None => false
  end.

(** The key under which [countVideo] counts an item, if it counts it. *)
Definition typeKey (video : T) : option jsstring :=
  match type_name video with
  | Some tn =>
      if JsString.truthy tn && JsString.truthy (JsString.trim tn)
      then Some (JsString.trim tn) else None
  | None => None
  end.

End Items.

End Item.

(** The comparison of [typeBadges]' sort over a numeric key, and the order
    it sorts into. *)
Module Order.

Section ByKey.
Variable A : Type.
Variable key : A -> nat.

Definition byKeyDesc (a b : A) : Z := (Z.of_nat (key b) - Z.of_nat (key a))%Z.

Definition notBelow (a b : A) : Prop := key b <= key a.

End ByKey.

End Order.

(** The type values the badge collector meets, in item order. *)
Module Encounter.

Section Keys.
Variable T : Type.
Variable type_name : T -> option jsstring.

(** The trimmed, non-empty type values of the items, one per item that has
    one, repeats included. *)
Definition typeValues (videos : list T) : list jsstring :=
  flat_map
    (fun video =>
       match Item.typeKey type_name video with
       | Some k => [k]
       | None => []
       end)
    videos.

End Keys.

End Encounter.

(** States the restoration effect of [useHomePage] ends in. *)
Module Mount.

Section States.
Variable SortOption : Type.
Variable Source : Type.
Variable Result : Type.
Variable AvailableSource : Type.

Let State : Type := UseHomePage.State SortOption Source Result AvailableSource.

(** The state [handleSearch] starts from inside the restoration effect:
    the one-shot flag set, the query set to the URL's. *)
Definition afterUrlQuery (q : jsstring) (st : State) : State :=
  {| UseHomePage.query := q;
     UseHomePage.hasSearched := UseHomePage.hasSearched st;
     UseHomePage.currentSortBy := UseHomePage.currentSortBy st;
     UseHomePage.hasLoadedCache := true;
     UseHomePage.hasSearchedWithSourcesRef :=
       UseHomePage.hasSearchedWithSourcesRef st;
     UseHomePage.calls := UseHomePage.calls st |}.

(** The state after a restoration from the cache. *)
Definition restored (q : jsstring) (c : Cached.t Result AvailableSource)
  (st : State) : State :=
  {| UseHomePage.query := q;
     UseHomePage.hasSearched := true;
     UseHomePage.currentSortBy := UseHomePage.currentSortBy st;
     UseHomePage.hasLoadedCache := true;
     UseHomePage.hasSearchedWithSourcesRef := true;
     UseHomePage.calls :=
       UseHomePage.calls st
       ++ [UseHomePage.LoadCachedResults SortOption Source
             (Cached.results c) (Cached.availableSources c)] |}.

(** The state after a run that only sets the one-shot flag. *)
Definition flagged (st : State) : State :=
  {| UseHomePage.query := UseHomePage.query st;
     UseHomePage.hasSearched := UseHomePage.hasSearched st;
     UseHomePage.currentSortBy := UseHomePage.currentSortBy st;
     UseHomePage.hasLoadedCache := true;
     UseHomePage.hasSearchedWithSourcesRef :=
       UseHomePage.hasSearchedWithSourcesRef st;
     UseHomePage.calls := UseHomePage.calls st |}.

End States.

End Mount.

(** States the handlers of [useHomePage] end in. *)
Module Step.

Section States.
Variable SortOption : Type.
Variable Source : Type.
Variable enabled : Source -> bool.
Variable Result : Type.
Variable AvailableSource : Type.

Let State : Type := UseHomePage.State SortOption Source Result AvailableSource.

(** After [performSearch] was called on the enabled sources and the latch
    set. *)
Definition searching (settings : Settings.t Source SortOption) (q : jsstring)
  (st : State) : State :=
  {| UseHomePage.query := UseHomePage.query st;
     UseHomePage.hasSearched := UseHomePage.hasSearched st;
     UseHomePage.currentSortBy := UseHomePage.currentSortBy st;
     UseHomePage.hasLoadedCache := UseHomePage.hasLoadedCache st;
     UseHomePage.hasSearchedWithSourcesRef := true;
     UseHomePage.calls :=
       UseHomePage.calls st
       ++ [UseHomePage.PerformSearch Result AvailableSource q
             (filter enabled (Settings.sources settings))
             (Settings.sortBy settings)] |}.

(** With the query set and [hasSearched] true. *)
Definition submitted (q : jsstring) (st : State) : State :=
  {| UseHomePage.query := q;
     UseHomePage.hasSearched := true;
     UseHomePage.currentSortBy := UseHomePage.currentSortBy st;
     UseHomePage.hasLoadedCache := UseHomePage.hasLoadedCache st;
     UseHomePage.hasSearchedWithSourcesRef :=
       UseHomePage.hasSearchedWithSourcesRef st;
     UseHomePage.calls := UseHomePage.calls st |}.

(** With the sort preference replaced. *)
Definition sortedBy (o : SortOption) (st : State) : State :=
  {| UseHomePage.query := UseHomePage.query st;
     UseHomePage.hasSearched := UseHomePage.hasSearched st;
     UseHomePage.currentSortBy := o;
     UseHomePage.hasLoadedCache := UseHomePage.hasLoadedCache st;
     UseHomePage.hasSearchedWithSourcesRef :=
       UseHomePage.hasSearchedWithSourcesRef st;
     UseHomePage.calls := UseHomePage.calls st |}.

(** Whether some source of the settings is enabled. *)
Definition hasSources (settings : Settings.t Source SortOption) : bool :=
  0 <? length (filter enabled (Settings.sources settings)).

End States.

End Step.

(** Calls of [performSearch] worth making: on a query that is not blank,
    with at least one source, every source enabled. *)
Module Trace.

Section Calls.
Variable SortOption : Type.
Variable Source : Type.
Variable Result : Type.
Variable AvailableSource : Type.
Variable enabled : Source -> bool.

Definition sound (c : UseHomePage.Call SortOption Source Result AvailableSource)
  : bool :=
  match c with
  | UseHomePage.PerformSearch _ _ q srcs _ =>
      negb (JsString.blank q) && (0 <? length srcs) && forallb enabled srcs
  | _ => true
  end.

End Calls.

End Trace.

Module Sample.

Record Video : Type :=
  { source : option jsstring; type_name : option jsstring }.

Definition ofType (ty : string) : Video :=
  {| source := None; type_name := Some (JsString.of_string ty) |}.

Definition ofSource (src : string) : Video :=
  {| source := Some (JsString.of_string src); type_name := None |}.

(** An available-source badge, reduced to what the hook reads. *)
Record SourceBadge : Type := { id : jsstring }.

(** A source of the settings store. *)
Record Source : Type := { sourceId : jsstring; enabled : bool }.

Inductive SortOption : Type := default | other.

Definition sortEqb (a b : SortOption) : bool :=
  match a, b with
  | default, default => true
  | other, other => true
  | _, _ => false
  end.

Definition sourceX : Source :=
  {| sourceId := JsString.of_string "X"; enabled := true |}.

Definition sourceOff : Source :=
  {| sourceId := JsString.of_string "Y"; enabled := false |}.

Definition settingsOf (srcs : list Source) : Settings.t Source SortOption :=
  {| Settings.sources := srcs; Settings.sortBy := default |}.

(** The hook's state at mount. *)
Definition mounted : UseHomePage.State SortOption Source Video SourceBadge :=
  UseHomePage.initialState Source Video SourceBadge default.

(** The cached bundle of Scenario C: query [dogs], three results. *)
Definition dogsBundle : Cached.t Video SourceBadge :=
  {| Cached.query := JsString.of_string "dogs";
     Cached.results := [ofSource "X"; ofSource "X"; ofSource "Y"];
     Cached.availableSources :=
       [ {| id := JsString.of_string "X" |};
         {| id := JsString.of_string "Y" |} ] |}.

(** A cached bundle stored under the empty query. *)
Definition emptyQueryBundle : Cached.t Video SourceBadge :=
  {| Cached.query := [];
     Cached.results := [ofSource "X"];
     Cached.availableSources := [ {| id := JsString.of_string "X" |} ] |}.

End Sample.

(* ================================================================== *)
(** * Properties *)

(** ** Strings *)

Lemma jsstring_eqb_eq (a b : jsstring) : JsString.eqb a b = true <-> a = b.
Proof.
  revert b; induction a as [|x a IH]; intros [|y b]; simpl;
    try (split; congruence).
  rewrite andb_true_iff, N.eqb_eq, IH. split.
  - intros [-> ->]; reflexivity.
  - intros E; injection E; auto.
Qed.

Lemma jsstring_eqb_refl (a : jsstring) : JsString.eqb a a = true.
Proof. apply jsstring_eqb_eq; reflexivity. Qed.

Lemma jsstring_eqb_neq (a b : jsstring) : JsString.eqb a b = false <-> a <> b.
Proof.
  rewrite <- jsstring_eqb_eq. destruct (JsString.eqb a b); split; congruence.
Qed.

Lemma jsstring_eqb_sym (a b : jsstring) : JsString.eqb a b = JsString.eqb b a.
Proof.
  destruct (JsString.eqb a b) eqn:E; symmetry.
  - apply jsstring_eqb_eq in E; subst; apply jsstring_eqb_refl.
  - apply jsstring_eqb_neq; apply jsstring_eqb_neq in E; congruence.
Qed.

Lemma truthy_nonempty (s : jsstring) : JsString.truthy s = true <-> s <> [].
Proof. destruct s; simpl; split; congruence. Qed.

Lemma trimStart_nil (s : jsstring) :
  JsString.trimStart s = [] <-> JsString.blank s = true.
Proof.
  induction s as [|c s IH]; simpl.
  - split; reflexivity.
  - destruct (JsString.is_white_space c); simpl; [exact IH|].
    split; discriminate.
Qed.

Lemma blank_app (a b : jsstring) :
  JsString.blank (a ++ b) = JsString.blank a && JsString.blank b.
Proof. apply forallb_app. Qed.

Lemma blank_rev (s : jsstring) : JsString.blank (rev s) = JsString.blank s.
Proof.
  induction s as [|c s IH]; simpl; [reflexivity|].
  rewrite blank_app, IH; simpl. rewrite andb_true_r. apply andb_comm.
Qed.

Lemma blank_trimStart (s : jsstring) :
  JsString.blank (JsString.trimStart s) = JsString.blank s.
Proof.
  induction s as [|c s IH]; simpl; [reflexivity|].
  destruct (JsString.is_white_space c) eqn:E; simpl; [exact IH|].
  rewrite E; reflexivity.
Qed.

(** [trim] gives the empty string exactly on blank strings. *)
Lemma trim_nil (s : jsstring) :
  JsString.trim s = [] <-> JsString.blank s = true.
Proof.
  unfold JsString.trim, JsString.trimEnd.
  rewrite <- (blank_trimStart s), <- (blank_rev (JsString.trimStart s)).
  rewrite <- trimStart_nil.
  split; intros H.
  - apply (f_equal (@rev _)) in H. rewrite rev_involutive in H. exact H.
  - rewrite H; reflexivity.
Qed.

Lemma truthy_trim (s : jsstring) :
  JsString.truthy (JsString.trim s) = negb (JsString.blank s).
Proof.
  destruct (JsString.blank s) eqn:B; simpl.
  - apply trim_nil in B. rewrite B; reflexivity.
  - apply truthy_nonempty. intros E. apply trim_nil in E. congruence.
Qed.

(** ** Sets *)

Lemma has_In (x : jsstring) (s : JsSet.t) : JsSet.has x s = true <-> In x s.
Proof.
  unfold JsSet.has. rewrite existsb_exists. split.
  - intros (y & Hy & E). apply jsstring_eqb_eq in E; subst; exact Hy.
  - intros H; exists x; split; [exact H|apply jsstring_eqb_refl].
Qed.

Lemma has_false_In (x : jsstring) (s : JsSet.t) :
  JsSet.has x s = false <-> ~ In x s.
Proof.
  rewrite <- has_In. destruct (JsSet.has x s); split; congruence.
Qed.

Lemma has_app (x : jsstring) (s1 s2 : JsSet.t) :
  JsSet.has x (s1 ++ s2) = JsSet.has x s1 || JsSet.has x s2.
Proof. apply existsb_app. Qed.

Lemma has_add (y x : jsstring) (s : JsSet.t) :
  JsSet.has y (JsSet.add x s) = JsString.eqb y x || JsSet.has y s.
Proof.
  unfold JsSet.add. destruct (JsSet.has x s) eqn:H.
  - destruct (JsString.eqb y x) eqn:E; [|reflexivity].
    apply jsstring_eqb_eq in E; subst. simpl; exact H.
  - rewrite has_app. simpl. rewrite orb_false_r. apply orb_comm.
Qed.

Lemma has_delete (y x : jsstring) (s : JsSet.t) :
  JsSet.has y (JsSet.delete x s) = negb (JsString.eqb y x) && JsSet.has y s.
Proof.
  unfold JsSet.delete. induction s as [|z s IH]; simpl.
  - rewrite andb_false_r; reflexivity.
  - destruct (JsString.eqb x z) eqn:Exz; simpl.
    + apply jsstring_eqb_eq in Exz; subst z. rewrite IH.
      destruct (JsString.eqb y x); reflexivity.
    + rewrite IH. destruct (JsString.eqb y z) eqn:Eyz; simpl.
      * apply jsstring_eqb_eq in Eyz; subst z.
        rewrite (jsstring_eqb_sym y x), Exz. reflexivity.
      * reflexivity.
Qed.

Lemma has_fold_add (y : jsstring) (l : list jsstring) (acc : JsSet.t) :
  JsSet.has y (fold_left (fun s x => JsSet.add x s) l acc)
  = JsSet.has y acc || JsSet.has y l.
Proof.
  revert acc; induction l as [|x l IH]; intros acc; simpl.
  - rewrite orb_false_r; reflexivity.
  - rewrite IH, has_add.
    destruct (JsString.eqb y x), (JsSet.has y acc), (JsSet.has y l);
      reflexivity.
Qed.

Lemma has_of_array (y : jsstring) (l : list jsstring) :
  JsSet.has y (JsSet.of_array l) = JsSet.has y l.
Proof. unfold JsSet.of_array. rewrite has_fold_add. reflexivity. Qed.

Lemma has_filter (y : jsstring) (p : jsstring -> bool) (s : JsSet.t) :
  JsSet.has y (filter p s) = p y && JsSet.has y s.
Proof.
  induction s as [|z s IH]; simpl.
  - rewrite andb_false_r; reflexivity.
  - destruct (p z) eqn:Pz; simpl; rewrite IH;
      destruct (JsString.eqb y z) eqn:E; simpl; try reflexivity.
    + apply jsstring_eqb_eq in E; subst z. rewrite Pz; reflexivity.
    + apply jsstring_eqb_eq in E; subst z. rewrite Pz; reflexivity.
Qed.

Lemma wf_add (x : jsstring) (s : JsSet.t) : JsSet.wf s -> JsSet.wf (JsSet.add x s).
Proof.
  unfold JsSet.wf, JsSet.add. intros H.
  destruct (JsSet.has x s) eqn:E; [exact H|].
  apply has_false_In in E.
  apply NoDup_app; [exact H|repeat constructor; intros []|].
  intros a Ha [<-|[]]. exact (E Ha).
Qed.

Lemma wf_delete (x : jsstring) (s : JsSet.t) :
  JsSet.wf s -> JsSet.wf (JsSet.delete x s).
Proof. apply NoDup_filter. Qed.

Lemma wf_fold_add (l : list jsstring) (acc : JsSet.t) :
  JsSet.wf acc -> JsSet.wf (fold_left (fun s x => JsSet.add x s) l acc).
Proof.
  revert acc; induction l as [|x l IH]; intros acc H; simpl; [exact H|].
  apply IH, wf_add, H.
Qed.

Lemma wf_of_array (l : list jsstring) : JsSet.wf (JsSet.of_array l).
Proof. apply wf_fold_add. constructor. Qed.

Lemma fold_add_NoDup (l : list jsstring) (acc : JsSet.t) :
  NoDup (acc ++ l) -> fold_left (fun s x => JsSet.add x s) l acc = acc ++ l.
Proof.
  revert acc; induction l as [|x l IH]; intros acc H; simpl.
  - rewrite app_nil_r; reflexivity.
  - assert (Hx : JsSet.has x acc = false).
    { apply has_false_In. apply NoDup_remove_2 in H.
      intros Hin; apply H, in_or_app; left; exact Hin. }
    unfold JsSet.add at 2. rewrite Hx.
    rewrite IH; rewrite <- app_assoc; simpl; [reflexivity|exact H].
Qed.

(** [new Set(s)] of a set is a copy with the same elements in the same
    order. *)
Lemma of_array_wf (s : JsSet.t) : JsSet.wf s -> JsSet.of_array s = s.
Proof. intros H. unfold JsSet.of_array. rewrite fold_add_NoDup; auto. Qed.

Lemma equiv_In (s1 s2 : JsSet.t) :
  JsSet.equiv s1 s2 <-> (forall x, In x s1 <-> In x s2).
Proof.
  unfold JsSet.equiv. split; intros H x.
  - rewrite <- !has_In, H; reflexivity.
  - destruct (JsSet.has x s1) eqn:E1, (JsSet.has x s2) eqn:E2; try reflexivity.
    + apply has_In, H, has_In in E1. congruence.
    + apply has_In, H, has_In in E2. congruence.
Qed.

Lemma length_fold_add (l : list jsstring) (acc : JsSet.t) :
  length (fold_left (fun s x => JsSet.add x s) l acc) <= length acc + length l.
Proof.
  revert acc; induction l as [|x l IH]; intros acc; simpl; [lia|].
  specialize (IH (JsSet.add x acc)).
  assert (length (JsSet.add x acc) <= S (length acc)).
  { unfold JsSet.add. destruct (JsSet.has x acc); [lia|].
    rewrite length_app; simpl; lia. }
  lia.
Qed.

Lemma size_of_array_le (l : list jsstring) :
  JsSet.size (JsSet.of_array l) <= length l.
Proof. apply (length_fold_add l []). Qed.

Lemma filter_length_all (A : Type) (p : A -> bool) (l : list A) :
  length (filter p l) = length l -> forall x, In x l -> p x = true.
Proof.
  induction l as [|a l IH]; simpl; intros H x; [intros []|].
  pose proof (filter_length_le p l) as Hle.
  destruct (p a) eqn:Pa; simpl in H; [|lia].
  intros [<-|Hin]; [exact Pa|]. apply IH; [lia|exact Hin].
Qed.

(** ** Toggle *)

Lemma has_toggle (value x : jsstring) (selected : JsSet.t) :
  JsSet.has x (Facet.toggle value selected)
  = xorb (JsSet.has x selected) (JsString.eqb x value).
Proof.
  unfold Facet.toggle, JsSet.to_array.
  rewrite has_of_array.
  destruct (JsSet.has value selected) eqn:Hv.
  - rewrite has_delete, has_of_array.
    destruct (JsString.eqb x value) eqn:E; simpl.
    + apply jsstring_eqb_eq in E; subst x. rewrite Hv; reflexivity.
    + rewrite xorb_false_r; reflexivity.
  - rewrite has_add, has_of_array.
    destruct (JsString.eqb x value) eqn:E; simpl.
    + apply jsstring_eqb_eq in E; subst x. rewrite Hv; reflexivity.
    + rewrite xorb_false_r; reflexivity.
Qed.

Lemma wf_toggle (value : jsstring) (selected : JsSet.t) :
  JsSet.wf (Facet.toggle value selected).
Proof.
  unfold Facet.toggle.
  destruct (JsSet.has value _); [apply wf_delete|apply wf_add]; apply wf_of_array.
Qed.

(** On a set, the toggle appends an absent value and deletes a present one,
    leaving the other elements in their order. *)
Lemma toggle_wf_cases (value : jsstring) (selected : JsSet.t) :
  JsSet.wf selected ->
  Facet.toggle value selected
  = if JsSet.has value selected then JsSet.delete value selected
    else selected ++ [value].
Proof.
  intros H. unfold Facet.toggle, JsSet.to_array. rewrite (of_array_wf H).
  unfold JsSet.add. destruct (JsSet.has value selected); reflexivity.
Qed.

(** C8: [toggleSource] and [toggleType] update the selection to its
    symmetric difference with the toggled value: an absent value becomes a
    member, a present one is removed, every other value keeps its
    membership; toggling the same value twice gives back the original set. *)
Theorem toggle_symmetric_difference_twice :
  forall (value : jsstring) (selected : JsSet.t),
    (forall x,
        JsSet.has x (UseSourceBadges.toggleSource value selected)
        = xorb (JsSet.has x selected) (JsString.eqb x value)) /\
    (forall x,
        JsSet.has x (UseTypeBadges.toggleType value selected)
        = xorb (JsSet.has x selected) (JsString.eqb x value)) /\
    JsSet.has value (UseSourceBadges.toggleSource value selected)
    = negb (JsSet.has value selected) /\
    JsSet.has value (UseTypeBadges.toggleType value selected)
    = negb (JsSet.has value selected) /\
    JsSet.equiv
      (UseSourceBadges.toggleSource value
         (UseSourceBadges.toggleSource value selected)) selected /\
    JsSet.equiv
      (UseTypeBadges.toggleType value
         (UseTypeBadges.toggleType value selected)) selected.
Proof.
  intros value selected.
  unfold UseSourceBadges.toggleSource, UseTypeBadges.toggleType.
  assert (Hneg : JsSet.has value (Facet.toggle value selected)
                 = negb (JsSet.has value selected)).
  { rewrite has_toggle, jsstring_eqb_refl.
    destruct (JsSet.has value selected); reflexivity. }
  assert (Htwice : JsSet.equiv
                     (Facet.toggle value (Facet.toggle value selected))
                     selected).
  { intros x. rewrite !has_toggle.
    destruct (JsSet.has x selected), (JsString.eqb x value); reflexivity. }
  repeat split; auto using has_toggle.
Qed.

(** ** Auto-cleanup *)

Lemma has_autoCleanup (availableIds : list jsstring) (prev : JsSet.t) :
  availableIds <> [] ->
  forall x,
    JsSet.has x (Facet.autoCleanup availableIds prev)
    = JsSet.has x prev && JsSet.has x availableIds.
Proof.
  intros Hne x. unfold Facet.autoCleanup, JsSet.to_array.
  destruct availableIds as [|a l]; [congruence|].
  change (length (a :: l) =? 0) with false. cbv iota.
  set (avail := JsSet.of_array (a :: l)).
  set (kept := filter (fun y => JsSet.has y avail) prev).
  assert (Hkept : JsSet.has x (JsSet.of_array kept)
                  = JsSet.has x prev && JsSet.has x (a :: l)).
  { rewrite has_of_array. unfold kept. rewrite has_filter.
    unfold avail. rewrite has_of_array. apply andb_comm. }
  destruct (JsSet.size (JsSet.of_array kept) =? JsSet.size prev) eqn:Esz;
    simpl; [|exact Hkept].
  apply Nat.eqb_eq in Esz.
  destruct (JsSet.has x prev) eqn:Hx; [|reflexivity].
  simpl. symmetry.
  pose proof (size_of_array_le kept) as H1.
  pose proof (filter_length_le (fun y => JsSet.has y avail) prev) as H2.
  fold kept in H2. unfold JsSet.size in *.
  assert (Hall : length kept = length prev) by lia.
  apply has_In in Hx.
  pose proof (filter_length_all _ _ Hall x Hx) as Hin. simpl in Hin.
  unfold avail in Hin. rewrite has_of_array in Hin. exact Hin.
Qed.

Lemma wf_autoCleanup (availableIds : list jsstring) (prev : JsSet.t) :
  JsSet.wf prev -> JsSet.wf (Facet.autoCleanup availableIds prev).
Proof.
  intros H. unfold Facet.autoCleanup.
  destruct (length availableIds =? 0); [exact H|].
  destruct (negb _); [apply wf_of_array|exact H].
Qed.

(** C2: with a non-empty available list, the selection after auto-cleanup
    holds exactly the values that were selected and are available (the
    intersection); with an empty available list the selection is returned
    as it was.  Both hooks: the source hook over the [id]s of the available
    sources, the type hook over the [type]s of the badges. *)
Theorem autoCleanup_is_intersection :
  forall (SourceBadge : Type) (id : SourceBadge -> jsstring)
         (availableSources : list SourceBadge)
         (badges : list UseTypeBadges.TypeBadge) (prev : JsSet.t),
    (availableSources <> [] ->
     forall x,
       JsSet.has x (UseSourceBadges.autoCleanup id availableSources prev)
       = JsSet.has x prev && JsSet.has x (map id availableSources)) /\
    (badges <> [] ->
     forall x,
       JsSet.has x (UseTypeBadges.autoCleanup badges prev)
       = JsSet.has x prev && JsSet.has x (map UseTypeBadges.type badges)) /\
    UseSourceBadges.autoCleanup id [] prev = prev /\
    UseTypeBadges.autoCleanup [] prev = prev.
Proof.
  intros SourceBadge id availableSources badges prev.
  unfold UseSourceBadges.autoCleanup, UseTypeBadges.autoCleanup.
  repeat split.
  - intros Hne. apply has_autoCleanup.
    destruct availableSources; [congruence|discriminate].
  - intros Hne. apply has_autoCleanup.
    destruct badges; [congruence|discriminate].
Qed.

(** ** URL-to-state reconciliation *)

(** The URL-change effect parses the parameter as the initial state does. *)
Lemma urlSet_initFromUrl (param : option jsstring) :
  Facet.urlSet param = Facet.initFromUrl param.
Proof.
  unfold Facet.urlSet, Facet.initFromUrl.
  destruct param as [p|]; [|reflexivity].
  destruct (JsString.truthy p); reflexivity.
Qed.

Lemma forallb_has_incl (s u : JsSet.t) :
  forallb (fun x => JsSet.has x u) s = true <-> incl s u.
Proof.
  rewrite forallb_forall. unfold incl.
  split; intros H x Hx; apply has_In, H, Hx.
Qed.

(** The test of the URL-change effect fails exactly on equal sets. *)
Lemma urlChange_test (s u : JsSet.t) :
  JsSet.wf s -> JsSet.wf u ->
  (negb (length s =? length u) || negb (forallb (fun x => JsSet.has x u) s)
   = false) <-> JsSet.equiv s u.
Proof.
  intros Hs Hu. rewrite equiv_In, orb_false_iff, !negb_false_iff.
  rewrite Nat.eqb_eq, forallb_has_incl. split.
  - intros [Hlen Hincl] x. split; [apply Hincl|].
    apply (NoDup_length_incl Hs); [lia|exact Hincl].
  - intros H.
    assert (H1 : incl s u) by (intros x; apply H).
    assert (H2 : incl u s) by (intros x; apply H).
    split; [|exact H1].
    pose proof (NoDup_incl_length Hs H1).
    pose proof (NoDup_incl_length Hu H2). lia.
Qed.

(** ** Maps and sorting *)

Lemma jsmap_get_set (k' k : jsstring) (v : nat) (m : JsMap.t) :
  JsMap.get k' (JsMap.set k v m)
  = if JsString.eqb k' k then Some v else JsMap.get k' m.
Proof.
  induction m as [|[k0 v0] m IH]; simpl; [reflexivity|].
  destruct (JsString.eqb k k0) eqn:E; simpl.
  - apply jsstring_eqb_eq in E; subst k0.
    destruct (JsString.eqb k' k); reflexivity.
  - rewrite IH. destruct (JsString.eqb k' k0) eqn:E0; [|reflexivity].
    destruct (JsString.eqb k' k) eqn:E1; [|reflexivity].
    apply jsstring_eqb_eq in E0, E1. subst.
    rewrite jsstring_eqb_refl in E. discriminate.
Qed.

Lemma jsmap_keys_set (k' k : jsstring) (v : nat) (m : JsMap.t) :
  In k' (map fst (JsMap.set k v m)) <-> k' = k \/ In k' (map fst m).
Proof.
  induction m as [|[k0 v0] m IH]; simpl; [intuition congruence|].
  destruct (JsString.eqb k k0) eqn:E; simpl.
  - apply jsstring_eqb_eq in E; subst k0. intuition congruence.
  - rewrite IH. intuition congruence.
Qed.

Lemma jsmap_NoDup_set (k : jsstring) (v : nat) (m : JsMap.t) :
  NoDup (map fst m) -> NoDup (map fst (JsMap.set k v m)).
Proof.
  induction m as [|[k0 v0] m IH]; simpl; intros H.
  - repeat constructor. intros [].
  - inversion H as [|? ? Hnin Hnd]; subst.
    destruct (JsString.eqb k k0) eqn:E; simpl.
    + apply jsstring_eqb_eq in E; subst k0. constructor; assumption.
    + constructor; [|apply IH; exact Hnd].
      rewrite jsmap_keys_set. intros [->|Hin]; [|exact (Hnin Hin)].
      rewrite jsstring_eqb_refl in E. discriminate.
Qed.

Lemma jsmap_get_In (k : jsstring) (n : nat) (m : JsMap.t) :
  NoDup (map fst m) -> (In (k, n) m <-> JsMap.get k m = Some n).
Proof.
  induction m as [|[k0 v0] m IH]; simpl; intros H.
  - split; [intros []|discriminate].
  - inversion H as [|? ? Hnin Hnd]; subst.
    destruct (JsString.eqb k k0) eqn:E.
    + apply jsstring_eqb_eq in E; subst k0. split.
      * intros [Heq|Hin]; [congruence|].
        exfalso; apply Hnin. apply (in_map fst) in Hin. exact Hin.
      * intros Heq; left; congruence.
    + rewrite <- (IH Hnd). split.
      * intros [Heq|Hin]; [|exact Hin].
        injection Heq as -> ->. rewrite jsstring_eqb_refl in E. discriminate.
      * intros Hin; right; exact Hin.
Qed.

Section SortFacts.
Variable A : Type.
Variable compareFn : A -> A -> Z.

Lemma insert_Permutation (x : A) (l : list A) :
  Permutation (JsArray.insert compareFn x l) (x :: l).
Proof.
  induction l as [|y l IH]; simpl; [reflexivity|].
  destruct (0 <? compareFn x y)%Z; [|reflexivity].
  rewrite IH. apply perm_swap.
Qed.

Lemma sort_Permutation (l : list A) :
  Permutation (JsArray.sort compareFn l) l.
Proof.
  induction l as [|x l IH]; simpl; [reflexivity|].
  rewrite insert_Permutation, IH. reflexivity.
Qed.

End SortFacts.

Section SortByKeyDescending.
Variable A : Type.
Variable key : A -> nat.

Lemma insert_HdRel (x a : A) (l : list A) :
  (Order.notBelow key) a x -> HdRel (Order.notBelow key) a l ->
  HdRel (Order.notBelow key) a (JsArray.insert (Order.byKeyDesc key) x l).
Proof.
  intros Hax Hl. destruct l as [|y l]; simpl; [constructor; exact Hax|].
  destruct (0 <? (Order.byKeyDesc key) x y)%Z; constructor; [|exact Hax].
  inversion Hl; assumption.
Qed.

Lemma insert_Sorted (x : A) (l : list A) :
  Sorted (Order.notBelow key) l ->
  Sorted (Order.notBelow key) (JsArray.insert (Order.byKeyDesc key) x l).
Proof.
  induction l as [|y l IH]; simpl; intros H.
  - repeat constructor.
  - inversion H as [|? ? Hs Hh]; subst.
    destruct (0 <? (Order.byKeyDesc key) x y)%Z eqn:E.
    + constructor; [apply IH; exact Hs|].
      apply insert_HdRel; [|exact Hh].
      apply Z.ltb_lt in E. unfold Order.byKeyDesc in E. unfold Order.notBelow. lia.
    + constructor; [exact H|]. constructor.
      apply Z.ltb_ge in E. unfold Order.byKeyDesc in E. unfold Order.notBelow. lia.
Qed.

Lemma sort_StronglySorted (l : list A) :
  StronglySorted (Order.notBelow key) (JsArray.sort (Order.byKeyDesc key) l).
Proof.
  apply Sorted_StronglySorted.
  - intros a b c Hab Hbc. unfold Order.notBelow in *. lia.
  - induction l as [|x l IH]; simpl; [constructor|].
    apply insert_Sorted, IH.
Qed.

(** The sort is stable: elements of equal key keep their order. *)
Lemma insert_stable (n : nat) (x : A) (l : list A) :
  filter (fun a => key a =? n) (JsArray.insert (Order.byKeyDesc key) x l)
  = filter (fun a => key a =? n) (x :: l).
Proof.
  induction l as [|y l IH]; [reflexivity|].
  simpl JsArray.insert.
  destruct (0 <? (Order.byKeyDesc key) x y)%Z eqn:E; [|reflexivity].
  apply Z.ltb_lt in E. unfold Order.byKeyDesc in E.
  simpl in *. rewrite IH.
  destruct (key x =? n) eqn:Ex, (key y =? n) eqn:Ey; try reflexivity.
  apply Nat.eqb_eq in Ex, Ey. lia.
Qed.

Lemma sort_stable (n : nat) (l : list A) :
  filter (fun a => key a =? n) (JsArray.sort (Order.byKeyDesc key) l)
  = filter (fun a => key a =? n) l.
Proof.
  induction l as [|x l IH]; [reflexivity|].
  simpl JsArray.sort. rewrite insert_stable. simpl. rewrite IH. reflexivity.
Qed.

End SortByKeyDescending.

(** ** The type badges *)

Section TypeBadgeFacts.
Variable T : Type.
Variable type_name : T -> option jsstring.

Lemma countVideo_typeKey (m : JsMap.t) (video : T) :
  UseTypeBadges.countVideo type_name m video
  = match Item.typeKey type_name video with
    | Some k => JsMap.set k (JsMap.orZero (JsMap.get k m) + 1) m
    | None => m
    end.
Proof.
  unfold UseTypeBadges.countVideo, Item.typeKey.
  destruct (type_name video) as [tn|]; [|reflexivity].
  destruct (JsString.truthy tn && JsString.truthy (JsString.trim tn));
    reflexivity.
Qed.

Lemma typeKey_typeValue (video : T) (k : jsstring) :
  Item.typeKey type_name video = Some k
  <-> k <> [] /\ Item.typeValue type_name video = Some k.
Proof.
  unfold Item.typeKey, Item.typeValue.
  destruct (type_name video) as [tn|]; simpl;
    [|split; [|intros [_ H]]; discriminate].
  destruct (JsString.truthy tn) eqn:Etn; simpl.
  - destruct (JsString.truthy (JsString.trim tn)) eqn:Etr.
    + apply truthy_nonempty in Etr. split.
      * intros H; injection H as <-. split; [exact Etr|reflexivity].
      * intros [_ H]; exact H.
    + split; [discriminate|]. intros [Hk H]. injection H as <-.
      apply truthy_nonempty in Hk. congruence.
  - destruct tn; [|discriminate]. split; [discriminate|].
    intros [Hk H]. injection H as <-. exfalso; apply Hk; reflexivity.
Qed.

Lemma typeKey_typed (video : T) :
  Item.typed type_name video
  = match Item.typeKey type_name video with
    | Some _ => true
    | None => false
    end.
Proof.
  unfold Item.typeKey, Item.typed.
  destruct (type_name video) as [tn|]; [|reflexivity].
  rewrite truthy_trim. destruct (JsString.blank tn) eqn:B; simpl.
  - rewrite andb_false_r; reflexivity.
  - destruct tn; [discriminate|reflexivity].
Qed.

Lemma hasType_typeKey (k : jsstring) (video : T) :
  k <> [] ->
  Item.hasType type_name k video
  = match Item.typeKey type_name video with
    | Some k' => JsString.eqb k' k
    | None => false
    end.
Proof.
  intros Hk. unfold Item.hasType.
  destruct (Item.typeKey type_name video) as [k'|] eqn:E.
  - apply typeKey_typeValue in E. destruct E as [_ ->]. reflexivity.
  - destruct (Item.typeValue type_name video) as [t'|] eqn:E'; [|reflexivity].
    apply jsstring_eqb_neq. intros ->.
    assert (Item.typeKey type_name video = Some k)
      by (apply typeKey_typeValue; auto).
    congruence.
Qed.

Lemma fold_countVideo_get (k : jsstring) (videos : list T) (m : JsMap.t) :
  k <> [] ->
  JsMap.orZero
    (JsMap.get k (fold_left (UseTypeBadges.countVideo type_name) videos m))
  = JsMap.orZero (JsMap.get k m)
    + length (filter (Item.hasType type_name k) videos).
Proof.
  intros Hk. revert m; induction videos as [|v videos IH]; intros m; simpl.
  - lia.
  - rewrite IH, countVideo_typeKey, (hasType_typeKey v Hk).
    destruct (Item.typeKey type_name v) as [k'|]; [|lia].
    rewrite jsmap_get_set, (jsstring_eqb_sym k k').
    destruct (JsString.eqb k' k) eqn:E; simpl; [|lia].
    apply jsstring_eqb_eq in E; subst k'. lia.
Qed.

Lemma fold_countVideo_keys (k : jsstring) (videos : list T) (m : JsMap.t) :
  In k (map fst (fold_left (UseTypeBadges.countVideo type_name) videos m))
  <-> In k (map fst m)
      \/ exists v, In v videos /\ Item.typeKey type_name v = Some k.
Proof.
  revert m; induction videos as [|v videos IH]; intros m; simpl.
  - split; [auto|]. intros [H|(v & [] & _)]; exact H.
  - rewrite IH, countVideo_typeKey.
    destruct (Item.typeKey type_name v) as [k'|] eqn:E.
    + rewrite jsmap_keys_set. split.
      * intros [[->|H]|(w & Hw & Ew)]; eauto.
      * intros [H|(w & [<-|Hw] & Ew)]; eauto.
        left; left; congruence.
    + split.
      * intros [H|(w & Hw & Ew)]; eauto.
      * intros [H|(w & [<-|Hw] & Ew)]; eauto. congruence.
Qed.

Lemma fold_countVideo_NoDup (videos : list T) (m : JsMap.t) :
  NoDup (map fst m) ->
  NoDup (map fst (fold_left (UseTypeBadges.countVideo type_name) videos m)).
Proof.
  revert m; induction videos as [|v videos IH]; intros m H; simpl; [exact H|].
  apply IH. rewrite countVideo_typeKey.
  destruct (Item.typeKey type_name v); [apply jsmap_NoDup_set|]; exact H.
Qed.

(** Items without a non-blank [type_name] leave the map as it is. *)
Lemma fold_countVideo_typed (videos : list T) (m : JsMap.t) :
  fold_left (UseTypeBadges.countVideo type_name)
    (filter (Item.typed type_name) videos) m
  = fold_left (UseTypeBadges.countVideo type_name) videos m.
Proof.
  revert m; induction videos as [|v videos IH]; intros m; simpl; [reflexivity|].
  rewrite typeKey_typed.
  destruct (Item.typeKey type_name v) eqn:E; simpl; rewrite IH; [reflexivity|].
  rewrite (countVideo_typeKey m v), E. reflexivity.
Qed.

Lemma typeBadges_unfold (videos : list T) :
  UseTypeBadges.typeBadges type_name videos
  = JsArray.sort (Order.byKeyDesc UseTypeBadges.count)
      (map (fun e => {| UseTypeBadges.type := fst e;
                        UseTypeBadges.count := snd e |})
           (UseTypeBadges.typeMapOf type_name videos)).
Proof. reflexivity. Qed.

Lemma typeBadges_In (videos : list T) (b : UseTypeBadges.TypeBadge) :
  In b (UseTypeBadges.typeBadges type_name videos)
  <-> In (UseTypeBadges.type b, UseTypeBadges.count b)
         (UseTypeBadges.typeMapOf type_name videos).
Proof.
  rewrite typeBadges_unfold.
  split.
  - intros H. apply (Permutation_in _ (sort_Permutation _ _)) in H.
    apply in_map_iff in H. destruct H as ([k n] & <- & Hin). exact Hin.
  - intros H. apply (Permutation_in _ (Permutation_sym (sort_Permutation _ _))).
    apply in_map_iff. exists (UseTypeBadges.type b, UseTypeBadges.count b).
    split; [destruct b; reflexivity|exact H].
Qed.

Lemma typeBadges_types (videos : list T) :
  Permutation (map UseTypeBadges.type (UseTypeBadges.typeBadges type_name videos))
              (map fst (UseTypeBadges.typeMapOf type_name videos)).
Proof.
  rewrite typeBadges_unfold.
  rewrite (Permutation_map _ (sort_Permutation _ _)).
  rewrite map_map. simpl. reflexivity.
Qed.

(** A badge's type is not empty and its count is the number of items of
    that type. *)
Lemma typeBadges_count (videos : list T) (b : UseTypeBadges.TypeBadge) :
  In b (UseTypeBadges.typeBadges type_name videos) ->
  UseTypeBadges.type b <> [] /\
  UseTypeBadges.count b
  = length (filter (Item.hasType type_name (UseTypeBadges.type b)) videos).
Proof.
  intros H. apply typeBadges_In in H.
  assert (Hk : UseTypeBadges.type b <> []).
  { apply (in_map fst) in H. simpl in H.
    apply fold_countVideo_keys in H. destruct H as [[]|(v & _ & E)].
    apply typeKey_typeValue in E. tauto. }
  split; [exact Hk|].
  apply jsmap_get_In in H; [|apply fold_countVideo_NoDup; constructor].
  pose proof (fold_countVideo_get videos JsMap.empty Hk) as G.
  unfold UseTypeBadges.typeMapOf in H. rewrite H in G. simpl in G. exact G.
Qed.

End TypeBadgeFacts.

(** C7: the type badges hold one entry per distinct non-empty trimmed
    [type_name] of the items; the count of an entry is the number of items
    with that trimmed [type_name]; items whose [type_name] is absent or blank
    change nothing; the entries are in descending order of count.  On the
    types movie, movie, show the badges are movie with 2, then show with 1. *)
Theorem typeBadges_counts_sorted :
  forall (T : Type) (type_name : T -> option jsstring) (videos : list T),
    NoDup (map UseTypeBadges.type (UseTypeBadges.typeBadges type_name videos)) /\
    (forall ty,
        In ty (map UseTypeBadges.type (UseTypeBadges.typeBadges type_name videos))
        <-> ty <> [] /\
            exists v, In v videos /\ Item.typeValue type_name v = Some ty) /\
    (forall b,
        In b (UseTypeBadges.typeBadges type_name videos) ->
        UseTypeBadges.count b
        = length (filter (Item.hasType type_name (UseTypeBadges.type b)) videos)) /\
    UseTypeBadges.typeBadges type_name (filter (Item.typed type_name) videos)
    = UseTypeBadges.typeBadges type_name videos /\
    StronglySorted
      (fun a b => UseTypeBadges.count b <= UseTypeBadges.count a)
      (UseTypeBadges.typeBadges type_name videos) /\
    UseTypeBadges.typeBadges Sample.type_name
      [Sample.ofType "movie"; Sample.ofType "movie"; Sample.ofType "show"]
    = [ {| UseTypeBadges.type := JsString.of_string "movie";
           UseTypeBadges.count := 2 |};
        {| UseTypeBadges.type := JsString.of_string "show";
           UseTypeBadges.count := 1 |} ].
Proof.
  intros T type_name videos. repeat apply conj.
  - apply (Permutation_NoDup
             (Permutation_sym (typeBadges_types type_name videos))).
    apply fold_countVideo_NoDup. constructor.
  - intros ty.
    assert (Hp := typeBadges_types type_name videos).
    split.
    + intros H. apply (Permutation_in _ Hp) in H.
      apply fold_countVideo_keys in H. destruct H as [[]|(v & Hv & E)].
      apply typeKey_typeValue in E. destruct E as [Hne E].
      split; [exact Hne|]. exists v; auto.
    + intros (Hne & v & Hv & E).
      apply (Permutation_in _ (Permutation_sym Hp)).
      apply fold_countVideo_keys. right. exists v. split; [exact Hv|].
      apply typeKey_typeValue; auto.
  - intros b Hb. apply (typeBadges_count _ _ _ Hb).
  - unfold UseTypeBadges.typeBadges, UseTypeBadges.typeMapOf.
    rewrite fold_countVideo_typed. reflexivity.
  - rewrite typeBadges_unfold.
    apply (sort_StronglySorted UseTypeBadges.count).
  - vm_compute. reflexivity.
Qed.

(** ** Filtering *)

Lemma size_zero_nil (s : JsSet.t) : (JsSet.size s =? 0) = true <-> s = [].
Proof. destruct s; simpl; split; congruence. Qed.

Lemma trim_nonempty_raw (tn : jsstring) : JsString.trim tn <> [] -> tn <> [].
Proof. intros H ->. apply H. reflexivity. Qed.

Lemma toggle_empty (value : jsstring) : Facet.toggle value JsSet.empty = [value].
Proof. reflexivity. Qed.

Section FilterFacts.
Variable T : Type.
Variable source : T -> option jsstring.
Variable type_name : T -> option jsstring.

Lemma source_filter_In (videos : list T) (selected : JsSet.t) (v : T) :
  selected <> [] ->
  (In v (UseSourceBadges.filteredVideos source videos selected)
   <-> In v videos /\
       exists s, source v = Some s /\ s <> [] /\ In s selected).
Proof.
  intros Hne. unfold UseSourceBadges.filteredVideos.
  destruct (JsSet.size selected =? 0) eqn:E;
    [apply size_zero_nil in E; congruence|].
  rewrite filter_In. apply and_iff_compat_l.
  destruct (source v) as [s|].
  - rewrite andb_true_iff, truthy_nonempty, has_In. split.
    + intros [H1 H2]. exists s; auto.
    + intros (s' & Hs & H1 & H2). injection Hs as <-. auto.
  - split; [discriminate|]. intros (s' & Hs & _). discriminate.
Qed.

Lemma type_filter_In (videos : list T) (selected : JsSet.t) (v : T) :
  selected <> [] ->
  (In v (UseTypeBadges.filteredVideos type_name videos selected)
   <-> In v videos /\
       exists tn, type_name v = Some tn /\ tn <> []
                  /\ In (JsString.trim tn) selected).
Proof.
  intros Hne. unfold UseTypeBadges.filteredVideos.
  destruct (JsSet.size selected =? 0) eqn:E;
    [apply size_zero_nil in E; congruence|].
  rewrite filter_In. apply and_iff_compat_l.
  destruct (type_name v) as [tn|].
  - rewrite andb_true_iff, truthy_nonempty, has_In. split.
    + intros [H1 H2]. exists tn; auto.
    + intros (s' & Hs & H1 & H2). injection Hs as <-. auto.
  - split; [discriminate|]. intros (s' & Hs & _). discriminate.
Qed.

(** Filtering by one badge type keeps the items of that type. *)
Lemma type_filter_single (videos : list T) (ty : jsstring) :
  ty <> [] ->
  UseTypeBadges.filteredVideos type_name videos
    (UseTypeBadges.toggleType ty JsSet.empty)
  = filter (Item.hasType type_name ty) videos.
Proof.
  intros Hne. unfold UseTypeBadges.toggleType. rewrite toggle_empty.
  unfold UseTypeBadges.filteredVideos. simpl.
  apply filter_ext. intros v. unfold Item.hasType, Item.typeValue.
  destruct (type_name v) as [tn|]; simpl; [|reflexivity].
  rewrite orb_false_r.
  destruct (JsString.eqb (JsString.trim tn) ty) eqn:E.
  - apply jsstring_eqb_eq in E. rewrite andb_true_r.
    apply truthy_nonempty, trim_nonempty_raw. congruence.
  - apply andb_false_r.
Qed.

End FilterFacts.

(** C1 (amended): with an empty selection the filters return the items
    unchanged.  With a non-empty selection they return, in input order, the
    items whose facet field ([source], or [type_name]) is present and not
    the empty string and whose facet value ([source], or trimmed
    [type_name]) is selected; hence, when the empty string is not selected,
    exactly the items whose facet value is selected. *)
Theorem filteredVideos_membership :
  forall (T : Type) (source type_name : T -> option jsstring)
         (videos : list T) (selected : JsSet.t),
    (selected = [] ->
     UseSourceBadges.filteredVideos source videos selected = videos /\
     UseTypeBadges.filteredVideos type_name videos selected = videos) /\
    (selected <> [] ->
     (forall v,
         In v (UseSourceBadges.filteredVideos source videos selected)
         <-> In v videos /\
             exists s, source v = Some s /\ s <> [] /\ In s selected) /\
     (forall v,
         In v (UseTypeBadges.filteredVideos type_name videos selected)
         <-> In v videos /\
             exists tn, type_name v = Some tn /\ tn <> []
                        /\ In (JsString.trim tn) selected) /\
     (exists keep,
         UseSourceBadges.filteredVideos source videos selected
         = filter keep videos) /\
     (exists keep,
         UseTypeBadges.filteredVideos type_name videos selected
         = filter keep videos)) /\
    (selected <> [] -> ~ In [] selected ->
     (forall v,
         In v (UseSourceBadges.filteredVideos source videos selected)
         <-> In v videos /\ exists s, source v = Some s /\ In s selected) /\
     (forall v,
         In v (UseTypeBadges.filteredVideos type_name videos selected)
         <-> In v videos /\
             exists ty, Item.typeValue type_name v = Some ty /\ In ty selected)).
Proof.
  intros T source type_name videos selected. repeat apply conj.
  - intros ->. split; reflexivity.
  - intros Hne. repeat apply conj.
    + intros v. apply source_filter_In, Hne.
    + intros v. apply type_filter_In, Hne.
    + unfold UseSourceBadges.filteredVideos.
      destruct (JsSet.size selected =? 0) eqn:E;
        [apply size_zero_nil in E; congruence|].
      eexists; reflexivity.
    + unfold UseTypeBadges.filteredVideos.
      destruct (JsSet.size selected =? 0) eqn:E;
        [apply size_zero_nil in E; congruence|].
      eexists; reflexivity.
  - intros Hne Hnil. split; intros v.
    + rewrite (source_filter_In source videos v Hne).
      apply and_iff_compat_l. split.
      * intros (s & Hs & _ & Hin). exists s; auto.
      * intros (s & Hs & Hin). exists s. repeat split; auto.
        intros ->. exact (Hnil Hin).
    + rewrite (type_filter_In type_name videos v Hne).
      apply and_iff_compat_l. unfold Item.typeValue. split.
      * intros (tn & Hs & _ & Hin). exists (JsString.trim tn).
        rewrite Hs. auto.
      * intros (ty & Hs & Hin).
        destruct (type_name v) as [tn|]; [|discriminate].
        simpl in Hs. injection Hs as <-. exists tn. repeat split; auto.
        apply trim_nonempty_raw. intros E. rewrite E in Hin. exact (Hnil Hin).
Qed.

(** C1, as stated, fails where the selection holds the empty string: an
    item whose [source] is the empty string has its facet value in the
    selection and is left out; so is an item whose [type_name] is the empty
    string, although its trimmed [type_name] is selected. *)
Lemma filteredVideos_drops_selected_empty_value :
  JsSet.size (UseSourceBadges.toggleSource [] JsSet.empty) <> 0 /\
  Sample.source (Sample.ofSource "") = Some [] /\
  JsSet.has [] (UseSourceBadges.toggleSource [] JsSet.empty) = true /\
  UseSourceBadges.filteredVideos Sample.source [Sample.ofSource ""]
    (UseSourceBadges.toggleSource [] JsSet.empty) = [] /\
  Item.typeValue Sample.type_name (Sample.ofType "") = Some [] /\
  JsSet.has [] (UseTypeBadges.toggleType [] JsSet.empty) = true /\
  UseTypeBadges.filteredVideos Sample.type_name [Sample.ofType ""]
    (UseTypeBadges.toggleType [] JsSet.empty) = [].
Proof. repeat split; try reflexivity. discriminate. Qed.

(** C10: a value taken from a produced type badge, once selected, matches
    every item whose trimmed [type_name] is that value, whatever white
    space surrounds the raw [type_name]; selected alone, it keeps exactly
    the items the badge counted. *)
Theorem badge_type_selects_counted_items :
  forall (T : Type) (type_name : T -> option jsstring) (videos : list T)
         (b : UseTypeBadges.TypeBadge) (selectedTypes : JsSet.t),
    In b (UseTypeBadges.typeBadges type_name videos) ->
    JsSet.has (UseTypeBadges.type b) selectedTypes = true ->
    (forall v tn,
        In v videos -> type_name v = Some tn ->
        JsString.trim tn = UseTypeBadges.type b ->
        In v (UseTypeBadges.filteredVideos type_name videos selectedTypes)) /\
    UseTypeBadges.filteredVideos type_name videos
      (UseTypeBadges.toggleType (UseTypeBadges.type b) JsSet.empty)
    = filter (Item.hasType type_name (UseTypeBadges.type b)) videos /\
    length (UseTypeBadges.filteredVideos type_name videos
              (UseTypeBadges.toggleType (UseTypeBadges.type b) JsSet.empty))
    = UseTypeBadges.count b.
Proof.
  intros T type_name videos b selectedTypes Hb Hsel.
  destruct (typeBadges_count _ _ _ Hb) as [Hne Hcount].
  repeat apply conj.
  - intros v tn Hv Htn Htrim.
    apply type_filter_In.
    + intros ->. discriminate.
    + split; [exact Hv|]. exists tn. repeat split; [exact Htn| |].
      * apply trim_nonempty_raw. congruence.
      * apply has_In. rewrite Htrim. exact Hsel.
  - apply type_filter_single, Hne.
  - rewrite type_filter_single by exact Hne. symmetry. exact Hcount.
Qed.

(** ** The URL parameter of a selection *)

Lemma split_no_separator (sep : JsString.code_unit) (x : jsstring) :
  ~ In sep x -> JsString.split sep x = [x].
Proof.
  induction x as [|c x IH]; simpl; intros H; [reflexivity|].
  destruct (N.eqb c sep) eqn:E.
  - apply N.eqb_eq in E. exfalso; apply H; left; exact E.
  - rewrite IH; [reflexivity|]. intros Hin; apply H; right; exact Hin.
Qed.

Lemma split_app_separator (sep : JsString.code_unit) (x rest : jsstring) :
  ~ In sep x ->
  JsString.split sep (x ++ sep :: rest) = x :: JsString.split sep rest.
Proof.
  induction x as [|c x IH]; simpl; intros H.
  - rewrite N.eqb_refl. reflexivity.
  - destruct (N.eqb c sep) eqn:E.
    + apply N.eqb_eq in E. exfalso; apply H; left; exact E.
    + rewrite IH; [reflexivity|]. intros Hin; apply H; right; exact Hin.
Qed.

Lemma split_join (sep : JsString.code_unit) (l : list jsstring) :
  l <> [] -> (forall x, In x l -> ~ In sep x) ->
  JsString.split sep (JsString.join sep l) = l.
Proof.
  induction l as [|x l IH]; intros Hne H; [congruence|].
  destruct l as [|y l].
  - simpl. apply split_no_separator, H. left; reflexivity.
  - change (JsString.join sep (x :: y :: l))
      with (x ++ sep :: JsString.join sep (y :: l)).
    rewrite split_app_separator by (apply H; left; reflexivity).
    rewrite IH; [reflexivity|discriminate|].
    intros z Hz. apply H. right; exact Hz.
Qed.

Lemma filter_truthy_all (l : list jsstring) :
  (forall x, In x l -> x <> []) -> filter JsString.truthy l = l.
Proof.
  induction l as [|x l IH]; simpl; intros H; [reflexivity|].
  assert (Hx : JsString.truthy x = true)
    by (apply truthy_nonempty, H; left; reflexivity).
  rewrite Hx, IH; [reflexivity|]. intros z Hz; apply H; right; exact Hz.
Qed.

Lemma join_truthy (sep : JsString.code_unit) (l : list jsstring) :
  l <> [] -> (forall x, In x l -> x <> []) ->
  JsString.truthy (JsString.join sep l) = true.
Proof.
  destruct l as [|x l]; intros Hne H; [congruence|].
  assert (Hx : x <> []) by (apply H; left; reflexivity).
  destruct x as [|c x]; [congruence|].
  destruct l; reflexivity.
Qed.

(** What the initial state reads back from the parameter written for a
    selection of non-empty, comma-free values: the same values in the same
    order, added one by one to a fresh set. *)
Lemma initFromUrl_urlParamOf (selected : JsSet.t) :
  (forall x, In x selected -> x <> [] /\ ~ In JsString.comma x) ->
  Facet.initFromUrl (Facet.urlParamOf selected) = JsSet.of_array selected.
Proof.
  intros H. unfold Facet.urlParamOf, Facet.initFromUrl, JsSet.to_array.
  destruct selected as [|x l]; [reflexivity|].
  rewrite join_truthy; [|discriminate|intros z Hz; apply H, Hz].
  rewrite join_truthy; [|discriminate|intros z Hz; apply H, Hz].
  unfold Facet.segments.
  rewrite split_join; [|discriminate|intros z Hz; apply H, Hz].
  rewrite filter_truthy_all; [reflexivity|intros z Hz; apply H, Hz].
Qed.

(** ** The search controller *)

Section ControllerFacts.
Variable SortOption : Type.
Variable Source : Type.
Variable enabled : Source -> bool.
Variable Result : Type.
Variable AvailableSource : Type.

Let State := UseHomePage.State SortOption Source Result AvailableSource.
Let SettingsT := Settings.t Source SortOption.
Let CachedT := Cached.t Result AvailableSource.

Lemma executeSearch_blank (settings : SettingsT) (q : jsstring) (st : State) :
  JsString.blank q = true ->
  UseHomePage.executeSearch enabled settings q st = (false, st).
Proof.
  intros H. unfold UseHomePage.executeSearch.
  rewrite truthy_trim, H. reflexivity.
Qed.

(** C4: on a non-blank query, with no enabled source [executeSearch]
    returns [false] and leaves the state as it was: no [performSearch]
    call, the latch untouched.  With an enabled source it calls
    [performSearch] once with the query, the enabled sources and the stored
    sort preference, sets the latch and returns [true]. *)
Theorem executeSearch_gated_by_enabled_sources :
  forall (settings : SettingsT) (searchQuery : jsstring) (st : State),
    JsString.blank searchQuery = false ->
    (filter enabled (Settings.sources settings) = [] ->
     UseHomePage.executeSearch enabled settings searchQuery st = (false, st)) /\
    (filter enabled (Settings.sources settings) <> [] ->
     UseHomePage.executeSearch enabled settings searchQuery st
     = (true,
        {| UseHomePage.query := UseHomePage.query st;
           UseHomePage.hasSearched := UseHomePage.hasSearched st;
           UseHomePage.currentSortBy := UseHomePage.currentSortBy st;
           UseHomePage.hasLoadedCache := UseHomePage.hasLoadedCache st;
           UseHomePage.hasSearchedWithSourcesRef := true;
           UseHomePage.calls :=
             UseHomePage.calls st
             ++ [UseHomePage.PerformSearch Result AvailableSource searchQuery
                   (filter enabled (Settings.sources settings))
                   (Settings.sortBy settings)] |})).
Proof.
  intros settings searchQuery st Hq.
  unfold UseHomePage.executeSearch. rewrite truthy_trim, Hq. simpl.
  split; intros H.
  - rewrite H. reflexivity.
  - destruct (filter enabled (Settings.sources settings)); [congruence|].
    reflexivity.
Qed.

(** C9: on a blank query (empty, or white space only) [handleSearch]
    returns with the state as it was: query, [hasSearched], latch and the
    calls made are all unchanged. *)
Theorem handleSearch_blank_is_noop :
  forall (settings : SettingsT) (searchQuery : jsstring) (st : State),
    JsString.blank searchQuery = true ->
    UseHomePage.handleSearch enabled settings searchQuery st = (tt, st).
Proof.
  intros settings searchQuery st H. unfold UseHomePage.handleSearch.
  rewrite truthy_trim, H. reflexivity.
Qed.

Lemma loadCacheEffect_sets_flag (settings : SettingsT)
  (urlQuery : option jsstring) (cached : option CachedT) (st : State) :
  UseHomePage.hasLoadedCache
    (snd (UseHomePage.loadCacheEffect enabled settings urlQuery cached st))
  = true.
Proof.
  unfold UseHomePage.loadCacheEffect, UseHomePage.bind, UseHomePage.getState.
  destruct (UseHomePage.hasLoadedCache st) eqn:E; [exact E|].
  simpl. destruct urlQuery as [q|]; [|reflexivity].
  destruct (JsString.truthy q); [|reflexivity].
  assert (Hh : forall st0 : State,
             UseHomePage.hasLoadedCache st0 = true ->
             UseHomePage.hasLoadedCache
               (snd (UseHomePage.handleSearch enabled settings q st0)) = true).
  { intros st0 H0. unfold UseHomePage.handleSearch, UseHomePage.executeSearch.
    destruct (negb (JsString.truthy (JsString.trim q))); [exact H0|].
    unfold UseHomePage.bind. simpl.
    destruct (length (filter enabled (Settings.sources settings)) =? 0);
      simpl; exact H0. }
  simpl. destruct cached as [c|]; [|apply Hh; reflexivity].
  destruct (JsString.eqb (Cached.query c) q && (0 <? length (Cached.results c)));
    [reflexivity|apply Hh; reflexivity].
Qed.

(** C3 (amended): the restoration effect sets its one-shot flag and does
    nothing once the flag is set, so it acts at most once.  On its first
    run, when the URL's [q] is not empty: if a cached bundle exists whose
    query equals [q] and whose result list is not empty, it sets the query,
    [hasSearched] and the latch and loads the cached results, with no
    [performSearch] call; otherwise it sets the query and runs
    [handleSearch] on [q].  When [q] is absent or empty it only sets the
    flag. *)
Theorem loadCacheEffect_restores_once :
  forall (settings : SettingsT) (urlQuery : option jsstring)
         (cached : option CachedT) (st : State),
    UseHomePage.hasLoadedCache
      (snd (UseHomePage.loadCacheEffect enabled settings urlQuery cached st))
    = true /\
    (UseHomePage.hasLoadedCache st = true ->
     UseHomePage.loadCacheEffect enabled settings urlQuery cached st = (tt, st)) /\
    (UseHomePage.hasLoadedCache st = false ->
     forall q, urlQuery = Some q -> q <> [] ->
       (forall c, cached = Some c ->
                  Cached.query c = q -> Cached.results c <> [] ->
                  UseHomePage.loadCacheEffect enabled settings urlQuery cached st
                  = (tt, Mount.restored q c st)) /\
       ((cached = None \/
         exists c, cached = Some c /\
                   (Cached.query c <> q \/ Cached.results c = [])) ->
        UseHomePage.loadCacheEffect enabled settings urlQuery cached st
        = UseHomePage.handleSearch enabled settings q
            (Mount.afterUrlQuery q st))) /\
    (UseHomePage.hasLoadedCache st = false ->
     urlQuery = None \/ urlQuery = Some [] ->
     UseHomePage.loadCacheEffect enabled settings urlQuery cached st
     = (tt, Mount.flagged st)).
Proof.
  intros settings urlQuery cached st. repeat apply conj.
  - apply loadCacheEffect_sets_flag.
  - intros H. unfold UseHomePage.loadCacheEffect, UseHomePage.bind,
      UseHomePage.getState. rewrite H. reflexivity.
  - intros H q -> Hq.
    assert (Ht : JsString.truthy q = true) by (apply truthy_nonempty, Hq).
    unfold UseHomePage.loadCacheEffect, UseHomePage.bind, UseHomePage.getState.
    rewrite H. simpl. rewrite Ht. simpl.
    split.
    + intros c -> Hc Hr. rewrite Hc, jsstring_eqb_refl.
      assert (Hlen : (0 <? length (Cached.results c)) = true)
        by (destruct (Cached.results c); [congruence|reflexivity]).
      rewrite Hlen. reflexivity.
    + intros [->|(c & -> & Hc)]; [reflexivity|].
      destruct Hc as [Hc|Hc].
      * apply jsstring_eqb_neq in Hc. rewrite Hc. reflexivity.
      * rewrite Hc. simpl. rewrite andb_false_r. reflexivity.
  - intros H Hq.
    unfold UseHomePage.loadCacheEffect, UseHomePage.bind, UseHomePage.getState.
    rewrite H. destruct Hq as [->| ->]; reflexivity.
Qed.

End ControllerFacts.

(** C3, as stated, fails where the URL's [q] is the empty string: a cached
    bundle whose query equals it, with a result, is not restored;
    [hasSearched] and the latch stay unset and nothing is loaded. *)
Lemma loadCacheEffect_ignores_cache_for_empty_query :
  Cached.query Sample.emptyQueryBundle = [] /\
  Cached.results Sample.emptyQueryBundle <> [] /\
  UseHomePage.hasLoadedCache Sample.mounted = false /\
  UseHomePage.loadCacheEffect Sample.enabled (Sample.settingsOf [Sample.sourceX])
    (Some []) (Some Sample.emptyQueryBundle) Sample.mounted
  = (tt,
     {| UseHomePage.query := [];
        UseHomePage.hasSearched := false;
        UseHomePage.currentSortBy := Sample.default;
        UseHomePage.hasLoadedCache := true;
        UseHomePage.hasSearchedWithSourcesRef := false;
        UseHomePage.calls := [] |}).
Proof. repeat split. discriminate. Qed.

(** ** The scenarios of the specification, and instances of the theorems *)

(** Scenario B: with no enabled source a search for cats makes no engine
    call; a later settings notification with an enabled source issues the
    deferred search. *)
Example scenario_B_deferred_search :
  UseHomePage.calls
    (snd (UseHomePage.handleSearch Sample.enabled
            (Sample.settingsOf [Sample.sourceOff])
            (JsString.of_string "cats") Sample.mounted)) = [] /\
  UseHomePage.calls
    (snd (UseHomePage.updateSettings Sample.sortEqb Sample.enabled
            (Sample.settingsOf [Sample.sourceOff; Sample.sourceX]) false
            (snd (UseHomePage.handleSearch Sample.enabled
                    (Sample.settingsOf [Sample.sourceOff])
                    (JsString.of_string "cats") Sample.mounted))))
  = [UseHomePage.PerformSearch Sample.Video Sample.SourceBadge
       (JsString.of_string "cats") [Sample.sourceX] Sample.default].
Proof. split; reflexivity. Qed.

(** Scenario E: the selected source X is pruned when only Y is available. *)
Example scenario_E_prunes_stale_source :
  UseSourceBadges.autoCleanup Sample.id
    [ {| Sample.id := JsString.of_string "Y" |} ]
    [JsString.of_string "X"; JsString.of_string "Y"]
  = [JsString.of_string "Y"].
Proof. reflexivity. Qed.

Lemma filteredVideos_membership_witness :
  In (Sample.ofSource "X")
     (UseSourceBadges.filteredVideos Sample.source
        [Sample.ofSource "X"; Sample.ofSource "Y"] [JsString.of_string "X"]) /\
  UseSourceBadges.filteredVideos Sample.source
    [Sample.ofSource "X"; Sample.ofSource "Y"] [] 
  = [Sample.ofSource "X"; Sample.ofSource "Y"].
Proof.
  destruct (filteredVideos_membership Sample.source Sample.type_name
              [Sample.ofSource "X"; Sample.ofSource "Y"]
              [JsString.of_string "X"]) as (_ & H & _).
  destruct (filteredVideos_membership Sample.source Sample.type_name
              [Sample.ofSource "X"; Sample.ofSource "Y"] [])
    as (H0 & _).
  split.
  - apply H; [discriminate|]. split; [left; reflexivity|].
    exists (JsString.of_string "X").
    repeat split; [discriminate|left; reflexivity].
  - apply H0. reflexivity.
Defined.

Lemma autoCleanup_is_intersection_witness :
  JsSet.has (JsString.of_string "X")
    (UseSourceBadges.autoCleanup Sample.id
       [ {| Sample.id := JsString.of_string "Y" |} ]
       [JsString.of_string "X"; JsString.of_string "Y"]) = false /\
  JsSet.has (JsString.of_string "Y")
    (UseSourceBadges.autoCleanup Sample.id
       [ {| Sample.id := JsString.of_string "Y" |} ]
       [JsString.of_string "X"; JsString.of_string "Y"]) = true.
Proof.
  destruct (autoCleanup_is_intersection Sample.id
              [ {| Sample.id := JsString.of_string "Y" |} ]
              [ {| UseTypeBadges.type := JsString.of_string "Y";
                   UseTypeBadges.count := 1 |} ]
              [JsString.of_string "X"; JsString.of_string "Y"])
    as (H & _).
  split; rewrite H; try reflexivity; discriminate.
Defined.

Lemma badge_type_selects_counted_items_witness :
  In (Sample.ofType " movie")
     (UseTypeBadges.filteredVideos Sample.type_name
        [Sample.ofType "show"; Sample.ofType " movie"; Sample.ofType "movie "]
        [JsString.of_string "movie"]) /\
  length
    (UseTypeBadges.filteredVideos Sample.type_name
       [Sample.ofType "show"; Sample.ofType " movie"; Sample.ofType "movie "]
       (UseTypeBadges.toggleType (JsString.of_string "movie") JsSet.empty))
  = 2.
Proof.
  assert (Hb : In {| UseTypeBadges.type := JsString.of_string "movie";
                     UseTypeBadges.count := 2 |}
                  (UseTypeBadges.typeBadges Sample.type_name
                     [Sample.ofType "show"; Sample.ofType " movie";
                      Sample.ofType "movie "])).
  { vm_compute. left; reflexivity. }
  destruct (@badge_type_selects_counted_items _ Sample.type_name _ _
              [JsString.of_string "movie"] Hb eq_refl) as (H1 & _ & H2).
  split.
  - apply (H1 (Sample.ofType " movie") (JsString.of_string " movie")).
    + right; left; reflexivity.
    + reflexivity.
    + reflexivity.
  - exact H2.
Defined.

Lemma executeSearch_gated_witness :
  UseHomePage.executeSearch Sample.enabled
    (Sample.settingsOf [Sample.sourceOff]) (JsString.of_string "cats")
    Sample.mounted = (false, Sample.mounted) /\
  fst (UseHomePage.executeSearch Sample.enabled
         (Sample.settingsOf [Sample.sourceOff; Sample.sourceX])
         (JsString.of_string "cats") Sample.mounted) = true.
Proof.
  destruct (executeSearch_gated_by_enabled_sources Sample.enabled
              (Sample.settingsOf [Sample.sourceOff])
              (JsString.of_string "cats") Sample.mounted eq_refl) as (H0 & _).
  destruct (executeSearch_gated_by_enabled_sources Sample.enabled
              (Sample.settingsOf [Sample.sourceOff; Sample.sourceX])
              (JsString.of_string "cats") Sample.mounted eq_refl) as (_ & H1).
  split.
  - apply H0. reflexivity.
  - rewrite H1; [reflexivity|discriminate].
Defined.

Lemma handleSearch_blank_is_noop_witness :
  UseHomePage.handleSearch Sample.enabled
    (Sample.settingsOf [Sample.sourceX]) (JsString.of_string "   ")
    Sample.mounted = (tt, Sample.mounted).
Proof.
  apply (handleSearch_blank_is_noop Sample.enabled
           (Sample.settingsOf [Sample.sourceX]) (JsString.of_string "   ")
           Sample.mounted).
  reflexivity.
Defined.

(** Scenario C: with the bundle for dogs cached and [q] = dogs in the URL,
    the mount restores the results and calls [performSearch] not at all. *)
Lemma loadCacheEffect_restores_once_witness :
  UseHomePage.loadCacheEffect Sample.enabled (Sample.settingsOf [Sample.sourceX])
    (Some (JsString.of_string "dogs")) (Some Sample.dogsBundle) Sample.mounted
  = (tt, Mount.restored (JsString.of_string "dogs") Sample.dogsBundle
           Sample.mounted)
  /\
  existsb (@UseHomePage.isPerformSearch _ _ _ _)
    (UseHomePage.calls
       (Mount.restored (JsString.of_string "dogs") Sample.dogsBundle
          Sample.mounted))
  = false.
Proof.
  destruct (loadCacheEffect_restores_once Sample.enabled
              (Sample.settingsOf [Sample.sourceX])
              (Some (JsString.of_string "dogs")) (Some Sample.dogsBundle)
              Sample.mounted) as (_ & _ & H & _).
  destruct (H eq_refl (JsString.of_string "dogs") eq_refl) as (Hr & _);
    [discriminate|].
  split.
  - apply Hr; [reflexivity|reflexivity|discriminate].
  - reflexivity.
Defined.

(* ================================================================== *)
(** * Further properties of the hooks *)

(** ** Parsing the URL parameter *)

Lemma split_segment_no_separator (sep : JsString.code_unit) (s x : jsstring) :
  In x (JsString.split sep s) -> ~ In sep x.
Proof.
  revert x; induction s as [|c s IH]; simpl; intros x H.
  - destruct H as [<-|[]]. intros [].
  - destruct (N.eqb c sep) eqn:E.
    + destruct H as [<-|H]; [intros []|apply IH, H].
    + apply N.eqb_neq in E.
      destruct (JsString.split sep s) as [|seg segs] eqn:Es.
      * destruct H as [<-|[]]. intros [Hc|[]]. congruence.
      * destruct H as [<-|H].
        -- intros [Hc|Hin]; [congruence|].
           apply (IH seg); [left; reflexivity|exact Hin].
        -- apply IH. right; exact H.
Qed.

Lemma In_of_array (x : jsstring) (l : list jsstring) :
  In x (JsSet.of_array l) <-> In x l.
Proof. rewrite <- !has_In, has_of_array. reflexivity. Qed.

Lemma initFromUrl_members (param : option jsstring) (x : jsstring) :
  In x (Facet.initFromUrl param) -> x <> [] /\ ~ In JsString.comma x.
Proof.
  unfold Facet.initFromUrl. destruct param as [p|]; [|intros []].
  destruct (JsString.truthy p); [|intros []].
  rewrite In_of_array. unfold Facet.segments. rewrite filter_In.
  intros [Hin Ht]. split.
  - apply truthy_nonempty, Ht.
  - apply (split_segment_no_separator _ _ _ Hin).
Qed.

Lemma wf_initFromUrl (param : option jsstring) :
  JsSet.wf (Facet.initFromUrl param).
Proof.
  unfold Facet.initFromUrl. destruct param as [p|]; [|constructor].
  destruct (JsString.truthy p); [apply wf_of_array|constructor].
Qed.

(** Whatever the URL parameter holds, the selection read from it is a set
    (no value twice) of values that are not empty and hold no comma. *)
Theorem initFromUrl_is_clean :
  forall param : option jsstring,
    JsSet.wf (Facet.initFromUrl param) /\
    JsSet.has [] (Facet.initFromUrl param) = false /\
    (forall x, In x (Facet.initFromUrl param) ->
               x <> [] /\ ~ In JsString.comma x).
Proof.
  intros param. repeat apply conj.
  - apply wf_initFromUrl.
  - apply has_false_In. intros H.
    apply initFromUrl_members in H. destruct H as [H _]. apply H; reflexivity.
  - apply initFromUrl_members.
Qed.

(** A selection read from the URL is written back as a parameter that
    reads as the very same selection: values and their order. *)
Theorem initFromUrl_fixed_by_round_trip :
  forall param : option jsstring,
    Facet.initFromUrl (Facet.urlParamOf (Facet.initFromUrl param))
    = Facet.initFromUrl param.
Proof.
  intros param.
  rewrite initFromUrl_urlParamOf by apply initFromUrl_members.
  apply of_array_wf, wf_initFromUrl.
Qed.

Lemma join_nil (sep : JsString.code_unit) (l : list jsstring) :
  JsString.join sep l = [] <-> l = [] \/ l = [[]].
Proof.
  destruct l as [|x l]; simpl.
  - split; auto.
  - destruct l as [|y l].
    + split.
      * intros ->; right; reflexivity.
      * intros [H|H]; [discriminate|]. injection H as ->. reflexivity.
    + split.
      * intros H. apply app_eq_nil in H. destruct H as [_ H]. discriminate.
      * intros [H|H]; discriminate.
Qed.

(** The sync effect never writes an empty parameter value: the parameter
    is deleted exactly for the empty selection and for the selection of the
    empty string alone, and is otherwise set to the non-empty joined value. *)
Theorem urlParamOf_absent_or_nonempty :
  forall selected : JsSet.t,
    (Facet.urlParamOf selected = None <-> selected = [] \/ selected = [[]]) /\
    (forall p, Facet.urlParamOf selected = Some p ->
               p <> [] /\ p = JsString.join JsString.comma selected).
Proof.
  intros selected. unfold Facet.urlParamOf, JsSet.to_array.
  rewrite <- join_nil with (sep := JsString.comma).
  destruct (JsString.join JsString.comma selected) as [|c p'] eqn:E; simpl.
  - split; [tauto|]. intros p H. discriminate.
  - split.
    + split; discriminate.
    + intros p H. injection H as <-. split; [discriminate|reflexivity].
Qed.

(** ** The URL-change effect *)

Lemma wf_urlChange (param : option jsstring) (selected : JsSet.t) :
  JsSet.wf selected -> JsSet.wf (Facet.urlChange param selected).
Proof.
  intros H. unfold Facet.urlChange, Facet.urlChangeUpdate.
  destruct (_ || _); [apply wf_of_array|exact H].
Qed.

(** After the URL-change effect the selection is a set with the members of
    the URL's set, whatever it held before; running the effect again on the
    same URL makes no update. *)
Theorem urlChange_converges :
  forall (param : option jsstring) (selected : JsSet.t),
    JsSet.wf selected ->
    JsSet.wf (Facet.urlChange param selected) /\
    JsSet.equiv (Facet.urlChange param selected) (Facet.initFromUrl param) /\
    Facet.urlChangeUpdate param (Facet.urlChange param selected) = None.
Proof.
  intros param selected Hwf.
  assert (Heq : JsSet.equiv (Facet.urlChange param selected)
                  (Facet.urlSet param)).
  { unfold Facet.urlChange, Facet.urlChangeUpdate, JsSet.to_array.
    destruct (negb (length selected =? length (Facet.urlSet param))
              || negb (forallb (fun s => JsSet.has s (Facet.urlSet param))
                         selected)) eqn:E.
    - intros x; reflexivity.
    - apply (urlChange_test Hwf (wf_of_array _)). exact E. }
  repeat apply conj.
  - apply wf_urlChange, Hwf.
  - rewrite <- urlSet_initFromUrl. exact Heq.
  - assert (Ht : negb (length (Facet.urlChange param selected)
                         =? length (Facet.urlSet param))
                 || negb (forallb (fun s => JsSet.has s (Facet.urlSet param))
                            (Facet.urlChange param selected)) = false).
    { apply urlChange_test;
        [apply wf_urlChange, Hwf|apply wf_of_array|exact Heq]. }
    unfold Facet.urlChangeUpdate at 1. unfold JsSet.to_array. cbv zeta.
    rewrite Ht. reflexivity.
Qed.

(** ** Toggle *)

Lemma length_delete_NoDup (x : jsstring) (s : JsSet.t) :
  NoDup s -> In x s -> S (length (JsSet.delete x s)) = length s.
Proof.
  unfold JsSet.delete. induction s as [|y s IH]; simpl; intros Hnd Hin.
  - destruct Hin.
  - inversion Hnd as [|? ? Hny Hnd']; subst.
    destruct (JsString.eqb x y) eqn:E; simpl.
    + apply jsstring_eqb_eq in E; subst y. f_equal.
      clear IH Hin Hnd. induction s as [|z s IH]; simpl; [reflexivity|].
      destruct (JsString.eqb x z) eqn:Ez.
      * apply jsstring_eqb_eq in Ez; subst z. exfalso; apply Hny; left; reflexivity.
      * simpl. f_equal. apply IH.
        -- intros H; apply Hny; right; exact H.
        -- inversion Hnd'; assumption.
    + f_equal. apply IH; [exact Hnd'|].
      destruct Hin as [->|Hin]; [|exact Hin].
      rewrite jsstring_eqb_refl in E. discriminate.
Qed.

(** On a set, toggling an absent value appends it (one value more, the
    others in their order); toggling a present value deletes it in place
    (one value less). *)
Theorem toggle_changes_size_by_one :
  forall (value : jsstring) (selected : JsSet.t),
    JsSet.wf selected ->
    (JsSet.has value selected = false ->
     Facet.toggle value selected = selected ++ [value] /\
     JsSet.size (Facet.toggle value selected) = S (JsSet.size selected)) /\
    (JsSet.has value selected = true ->
     Facet.toggle value selected = JsSet.delete value selected /\
     S (JsSet.size (Facet.toggle value selected)) = JsSet.size selected).
Proof.
  intros value selected Hwf.
  rewrite (toggle_wf_cases value Hwf).
  split; intros H; rewrite H; split; try reflexivity.
  - unfold JsSet.size. rewrite length_app. simpl. lia.
  - apply length_delete_NoDup; [exact Hwf|apply has_In, H].
Qed.

(** The selection stays a set under toggles, and toggles of two values
    give the same set in either order. *)
Theorem toggle_keeps_set_and_commutes :
  forall (a b : jsstring) (selected : JsSet.t),
    JsSet.wf (Facet.toggle a selected) /\
    JsSet.equiv (Facet.toggle a (Facet.toggle b selected))
                (Facet.toggle b (Facet.toggle a selected)).
Proof.
  intros a b selected. split; [apply wf_toggle|].
  intros x. rewrite !has_toggle.
  destruct (JsSet.has x selected), (JsString.eqb x a), (JsString.eqb x b);
    reflexivity.
Qed.

(** ** Auto-cleanup *)

Lemma filter_length_id (A : Type) (p : A -> bool) (l : list A) :
  length (filter p l) = length l -> filter p l = l.
Proof.
  induction l as [|a l IH]; simpl; intros H; [reflexivity|].
  pose proof (filter_length_le p l) as Hle.
  destruct (p a); simpl in H; [|lia].
  f_equal. apply IH. lia.
Qed.

Lemma filter_idem (A : Type) (p : A -> bool) (l : list A) :
  filter p (filter p l) = filter p l.
Proof.
  induction l as [|a l IH]; simpl; [reflexivity|].
  destruct (p a) eqn:E; simpl; [rewrite E, IH|rewrite IH]; reflexivity.
Qed.

Lemma autoCleanup_filter (availableIds : list jsstring) (prev : JsSet.t) :
  JsSet.wf prev -> availableIds <> [] ->
  Facet.autoCleanup availableIds prev
  = filter (fun x => JsSet.has x availableIds) prev.
Proof.
  intros Hwf Hne. unfold Facet.autoCleanup, JsSet.to_array, JsSet.size.
  destruct availableIds as [|a l]; [congruence|].
  change (length (a :: l) =? 0) with false. cbv iota.
  rewrite (filter_ext (fun x => JsSet.has x (JsSet.of_array (a :: l)))
             (fun x => JsSet.has x (a :: l)))
    by (intros x; apply has_of_array).
  rewrite of_array_wf by (apply NoDup_filter, Hwf).
  destruct (length (filter (fun x => JsSet.has x (a :: l)) prev)
            =? length prev) eqn:E; simpl; [|reflexivity].
  apply Nat.eqb_eq in E. symmetry. apply filter_length_id, E.
Qed.

(** On a set, auto-cleanup against a non-empty available list keeps the
    available values in their order and drops the others; it returns the
    selection as it is when every value is available; a second run changes
    nothing. *)
Theorem autoCleanup_keeps_order_idempotent :
  forall (availableIds : list jsstring) (prev : JsSet.t),
    JsSet.wf prev -> availableIds <> [] ->
    Facet.autoCleanup availableIds prev
    = filter (fun x => JsSet.has x availableIds) prev /\
    ((forall x, In x prev -> In x availableIds) ->
     Facet.autoCleanup availableIds prev = prev) /\
    Facet.autoCleanup availableIds (Facet.autoCleanup availableIds prev)
    = Facet.autoCleanup availableIds prev /\
    JsSet.size (Facet.autoCleanup availableIds prev) <= JsSet.size prev.
Proof.
  intros availableIds prev Hwf Hne.
  rewrite (autoCleanup_filter Hwf Hne).
  repeat apply conj.
  - reflexivity.
  - intros H. apply filter_length_id.
    assert (Hall : forallb (fun x => JsSet.has x availableIds) prev = true).
    { apply forallb_forall. intros x Hx. apply has_In, H, Hx. }
    clear H. induction prev as [|y s IH]; simpl in *; [reflexivity|].
    apply andb_true_iff in Hall. destruct Hall as [Hy Hs].
    rewrite Hy. simpl. f_equal. apply IH; [inversion Hwf; assumption|exact Hs].
  - rewrite autoCleanup_filter; [apply filter_idem| |exact Hne].
    apply NoDup_filter, Hwf.
  - apply filter_length_le.
Qed.

(** ** Well-formed strings *)

Lemma jsstring_pair_ind (P : jsstring -> Prop) :
  P [] -> (forall c, P [c]) ->
  (forall c d s, P s -> P (d :: s) -> P (c :: d :: s)) ->
  forall s, P s.
Proof.
  intros H0 H1 H2 s.
  assert (H : P s /\ forall c, P (c :: s)).
  { induction s as [|d s [IHs IHc]]; [split; [exact H0|exact H1]|].
    split; [apply IHc|]. intros c. apply H2; [exact IHs|apply IHc]. }
  apply H.
Qed.

Lemma toUSVString_wellFormed (s : jsstring) :
  UrlSearchParams.isWellFormed s = true -> UrlSearchParams.toUSVString s = s.
Proof.
  induction s as [|c|c d s IHs IHd] using jsstring_pair_ind.
  - reflexivity.
  - simpl. destruct (UrlSearchParams.isLeadSurrogate c); [discriminate|].
    destruct (UrlSearchParams.isTrailSurrogate c); [discriminate|reflexivity].
  - intros H.
    change (UrlSearchParams.isWellFormed (c :: d :: s))
      with (if UrlSearchParams.isLeadSurrogate c
            then UrlSearchParams.isTrailSurrogate d
                 && UrlSearchParams.isWellFormed s
            else negb (UrlSearchParams.isTrailSurrogate c)
                 && UrlSearchParams.isWellFormed (d :: s)) in H.
    change (UrlSearchParams.toUSVString (c :: d :: s))
      with (if UrlSearchParams.isLeadSurrogate c
            then if UrlSearchParams.isTrailSurrogate d
                 then c :: d :: UrlSearchParams.toUSVString s
                 else UrlSearchParams.replacement
                      :: UrlSearchParams.toUSVString (d :: s)
            else if UrlSearchParams.isTrailSurrogate c
                 then UrlSearchParams.replacement
                      :: UrlSearchParams.toUSVString (d :: s)
                 else c :: UrlSearchParams.toUSVString (d :: s)).
    destruct (UrlSearchParams.isLeadSurrogate c).
    + apply andb_true_iff in H. destruct H as [Hd Hs].
      rewrite Hd, (IHs Hs). reflexivity.
    + apply andb_true_iff in H. destruct H as [Hc Hs].
      apply negb_true_iff in Hc. rewrite Hc, (IHd Hs). reflexivity.
Qed.

Lemma isWellFormed_cons_plain (c : JsString.code_unit) (s : jsstring) :
  UrlSearchParams.isLeadSurrogate c = false ->
  UrlSearchParams.isWellFormed (c :: s)
  = negb (UrlSearchParams.isTrailSurrogate c) && UrlSearchParams.isWellFormed s.
Proof. intros H. simpl. rewrite H. reflexivity. Qed.

Lemma isWellFormed_app (x y : jsstring) :
  UrlSearchParams.isWellFormed x = true ->
  UrlSearchParams.isWellFormed y = true ->
  UrlSearchParams.isWellFormed (x ++ y) = true.
Proof.
  intros Hx Hy. revert Hx.
  induction x as [|c|c d s IHs IHd] using jsstring_pair_ind; intros Hx.
  - exact Hy.
  - simpl in Hx. destruct (UrlSearchParams.isLeadSurrogate c) eqn:E;
      [discriminate|].
    change ([c] ++ y) with (c :: y).
    rewrite (@isWellFormed_cons_plain c y E), Hy.
    rewrite andb_true_r in Hx. rewrite Hx. reflexivity.
  - change ((c :: d :: s) ++ y) with (c :: d :: (s ++ y)).
    change (UrlSearchParams.isWellFormed (c :: d :: s))
      with (if UrlSearchParams.isLeadSurrogate c
            then UrlSearchParams.isTrailSurrogate d
                 && UrlSearchParams.isWellFormed s
            else negb (UrlSearchParams.isTrailSurrogate c)
                 && UrlSearchParams.isWellFormed (d :: s)) in Hx.
    change (UrlSearchParams.isWellFormed (c :: d :: (s ++ y)))
      with (if UrlSearchParams.isLeadSurrogate c
            then UrlSearchParams.isTrailSurrogate d
                 && UrlSearchParams.isWellFormed (s ++ y)
            else negb (UrlSearchParams.isTrailSurrogate c)
                 && UrlSearchParams.isWellFormed ((d :: s) ++ y)).
    destruct (UrlSearchParams.isLeadSurrogate c).
    + apply andb_true_iff in Hx. destruct Hx as [Hd Hs].
      rewrite Hd, (IHs Hs). reflexivity.
    + apply andb_true_iff in Hx. destruct Hx as [Hc Hs].
      rewrite Hc, (IHd Hs). reflexivity.
Qed.

Lemma isWellFormed_join (l : list jsstring) :
  (forall x, In x l -> UrlSearchParams.isWellFormed x = true) ->
  UrlSearchParams.isWellFormed (JsString.join JsString.comma l) = true.
Proof.
  induction l as [|x l IH]; intros H; [reflexivity|].
  destruct l as [|y l].
  - simpl. apply H. left; reflexivity.
  - change (JsString.join JsString.comma (x :: y :: l))
      with (x ++ JsString.comma :: JsString.join JsString.comma (y :: l)).
    apply isWellFormed_app; [apply H; left; reflexivity|].
    rewrite isWellFormed_cons_plain by reflexivity.
    apply IH. intros z Hz. apply H. right; exact Hz.
Qed.

Lemma urlParamOf_wellFormed (selected : JsSet.t) :
  (forall x, In x selected -> UrlSearchParams.isWellFormed x = true) ->
  option_map UrlSearchParams.toUSVString (Facet.urlParamOf selected)
  = Facet.urlParamOf selected.
Proof.
  intros H. unfold Facet.urlParamOf, JsSet.to_array.
  destruct (JsString.truthy (JsString.join JsString.comma selected));
    [|reflexivity].
  simpl. rewrite toUSVString_wellFormed; [reflexivity|].
  apply isWellFormed_join, H.
Qed.

(** ** The URL parameters *)

Lemma usp_lookup_remove (k name : jsstring) (params : UrlSearchParams.t) :
  UrlSearchParams.lookup k (UrlSearchParams.remove name params)
  = if JsString.eqb k name then None else UrlSearchParams.lookup k params.
Proof.
  unfold UrlSearchParams.remove.
  induction params as [|[k0 v0] params IH]; simpl.
  - destruct (JsString.eqb k name); reflexivity.
  - destruct (JsString.eqb name k0) eqn:E; simpl.
    + apply jsstring_eqb_eq in E; subst k0. rewrite IH.
      destruct (JsString.eqb k name); reflexivity.
    + rewrite IH. destruct (JsString.eqb k k0) eqn:E0; [|reflexivity].
      apply jsstring_eqb_eq in E0; subst k0.
      rewrite (jsstring_eqb_sym k name), E. reflexivity.
Qed.

Lemma usp_lookup_replace (k name value : jsstring)
  (params : UrlSearchParams.t) :
  UrlSearchParams.lookup k (UrlSearchParams.replace name value params)
  = if JsString.eqb k name then Some value
    else UrlSearchParams.lookup k params.
Proof.
  induction params as [|[k0 v0] params IH]; simpl.
  - reflexivity.
  - destruct (JsString.eqb name k0) eqn:E; simpl.
    + apply jsstring_eqb_eq in E; subst k0. rewrite usp_lookup_remove.
      destruct (JsString.eqb k name); reflexivity.
    + rewrite IH. destruct (JsString.eqb k k0) eqn:E0; [|reflexivity].
      apply jsstring_eqb_eq in E0; subst k0.
      rewrite (jsstring_eqb_sym k name), E. reflexivity.
Qed.

Lemma usp_get_delete (k name : jsstring) (params : UrlSearchParams.t) :
  UrlSearchParams.get k (UrlSearchParams.delete name params)
  = if JsString.eqb (UrlSearchParams.toUSVString k)
         (UrlSearchParams.toUSVString name)
    then None else UrlSearchParams.get k params.
Proof. apply usp_lookup_remove. Qed.

Lemma usp_get_set (k name value : jsstring) (params : UrlSearchParams.t) :
  UrlSearchParams.get k (UrlSearchParams.set name value params)
  = if JsString.eqb (UrlSearchParams.toUSVString k)
         (UrlSearchParams.toUSVString name)
    then Some (UrlSearchParams.toUSVString value)
    else UrlSearchParams.get k params.
Proof. apply usp_lookup_replace. Qed.

Lemma syncEffect_get (key k : jsstring) (searchParams : UrlSearchParams.t)
  (selected : JsSet.t) :
  exists params',
    UrlSync.syncEffect key false searchParams selected = (false, Some params') /\
    UrlSearchParams.get k params'
    = if JsString.eqb (UrlSearchParams.toUSVString k)
           (UrlSearchParams.toUSVString key)
      then option_map UrlSearchParams.toUSVString (Facet.urlParamOf selected)
      else UrlSearchParams.get k searchParams.
Proof.
  unfold UrlSync.syncEffect, Facet.urlParamOf. cbv zeta.
  eexists. split; [reflexivity|].
  destruct (JsString.truthy
              (JsString.join JsString.comma (JsSet.to_array selected))).
  - apply usp_get_set.
  - apply usp_get_delete.
Qed.

Lemma syncEffect_get_all (key : jsstring) (searchParams params' : UrlSearchParams.t)
  (selected : JsSet.t) :
  UrlSync.syncEffect key false searchParams selected = (false, Some params') ->
  forall k,
    UrlSearchParams.get k params'
    = if JsString.eqb (UrlSearchParams.toUSVString k)
           (UrlSearchParams.toUSVString key)
      then option_map UrlSearchParams.toUSVString (Facet.urlParamOf selected)
      else UrlSearchParams.get k searchParams.
Proof.
  intros Hs k.
  destruct (syncEffect_get key k searchParams selected) as (p2 & Hs2 & Hk2).
  congruence.
Qed.

(** The sync effect of a badge hook makes no navigation on its first run.
    On a later run it navigates to parameters in which its own parameter is
    the joined selection as a [USVString] (absent when the joined value is
    empty), which is the joined selection itself when the selected values
    are well-formed; every parameter of another name reads as before: the
    source hook leaves [types] and [q], the type hook leaves [sources] and
    [q]. *)
Theorem syncEffect_touches_own_parameter_only :
  forall (key : jsstring) (searchParams : UrlSearchParams.t)
         (selected : JsSet.t),
    UrlSync.syncEffect key true searchParams selected = (false, None) /\
    exists params',
      UrlSync.syncEffect key false searchParams selected
      = (false, Some params') /\
      UrlSearchParams.get key params'
      = option_map UrlSearchParams.toUSVString (Facet.urlParamOf selected) /\
      ((forall x, In x selected -> UrlSearchParams.isWellFormed x = true) ->
       UrlSearchParams.get key params' = Facet.urlParamOf selected) /\
      (forall k,
          UrlSearchParams.toUSVString k <> UrlSearchParams.toUSVString key ->
          UrlSearchParams.get k params'
          = UrlSearchParams.get k searchParams) /\
      (key = UrlSync.sourcesKey ->
       UrlSearchParams.get UrlSync.typesKey params'
       = UrlSearchParams.get UrlSync.typesKey searchParams /\
       UrlSearchParams.get UrlSync.qKey params'
       = UrlSearchParams.get UrlSync.qKey searchParams) /\
      (key = UrlSync.typesKey ->
       UrlSearchParams.get UrlSync.sourcesKey params'
       = UrlSearchParams.get UrlSync.sourcesKey searchParams /\
       UrlSearchParams.get UrlSync.qKey params'
       = UrlSearchParams.get UrlSync.qKey searchParams).
Proof.
  intros key searchParams selected. split; [reflexivity|].
  destruct (syncEffect_get key key searchParams selected) as (params' & Hs & _).
  exists params'. split; [exact Hs|].
  pose proof (@syncEffect_get_all _ _ _ _ Hs) as Hget.
  repeat apply conj.
  - rewrite Hget, jsstring_eqb_refl. reflexivity.
  - intros Hwf. rewrite Hget, jsstring_eqb_refl.
    apply urlParamOf_wellFormed, Hwf.
  - intros k Hne. rewrite Hget. apply jsstring_eqb_neq in Hne.
    rewrite Hne. reflexivity.
  - intros ->. rewrite !Hget. split; reflexivity.
  - intros ->. rewrite !Hget. split; reflexivity.
Qed.

Lemma urlChangeUpdate_own_param (selected : JsSet.t) :
  JsSet.wf selected ->
  (forall x, In x selected -> x <> [] /\ ~ In JsString.comma x) ->
  Facet.urlChangeUpdate (Facet.urlParamOf selected) selected = None.
Proof.
  intros Hwf Hclean.
  assert (Hset : Facet.urlSet (Facet.urlParamOf selected) = selected).
  { rewrite urlSet_initFromUrl, (initFromUrl_urlParamOf selected Hclean).
    apply of_array_wf, Hwf. }
  assert (Ht : negb (length selected =? length selected)
               || negb (forallb (fun s => JsSet.has s selected) selected)
               = false).
  { apply (urlChange_test Hwf Hwf). intros x; reflexivity. }
  unfold Facet.urlChangeUpdate, JsSet.to_array. cbv zeta.
  rewrite Hset, Ht. reflexivity.
Qed.

(** The parameter a hook reads back after its own sync effect, for a
    selection of well-formed values: what the effect wrote. *)
Lemma syncEffect_own_param (key : jsstring)
  (searchParams params' : UrlSearchParams.t) (selected : JsSet.t) :
  (forall x, In x selected -> UrlSearchParams.isWellFormed x = true) ->
  UrlSync.syncEffect key false searchParams selected = (false, Some params') ->
  UrlSearchParams.get key params' = Facet.urlParamOf selected.
Proof.
  intros Hwf Hs.
  rewrite (@syncEffect_get_all _ _ _ _ Hs), jsstring_eqb_refl.
  apply urlParamOf_wellFormed, Hwf.
Qed.

(** No feedback loop: for a selection that is a set of well-formed,
    non-empty, comma-free values, the URL the sync effect navigates to
    makes the URL-change effect of the same hook issue no update, reads
    back as the same selection on a fresh mount, and leaves the URL-change
    effect of a hook under another parameter name with the result it
    had. *)
Theorem sync_then_urlChange_is_quiet :
  forall (key : jsstring) (searchParams params' : UrlSearchParams.t)
         (selected : JsSet.t),
    JsSet.wf selected ->
    (forall x, In x selected ->
               x <> [] /\ ~ In JsString.comma x
               /\ UrlSearchParams.isWellFormed x = true) ->
    UrlSync.syncEffect key false searchParams selected = (false, Some params') ->
    UrlSync.urlChangeEffect key params' selected = None /\
    UrlSync.initialSelection key params' = selected /\
    (forall other others,
        UrlSearchParams.toUSVString other <> UrlSearchParams.toUSVString key ->
        UrlSync.urlChangeEffect other params' others
        = UrlSync.urlChangeEffect other searchParams others).
Proof.
  intros key searchParams params' selected Hwf Hclean Hs.
  assert (Hc : forall x, In x selected -> x <> [] /\ ~ In JsString.comma x)
    by (intros x Hx; destruct (Hclean x Hx) as (H1 & H2 & _); auto).
  assert (Hw : forall x, In x selected ->
                         UrlSearchParams.isWellFormed x = true)
    by (intros x Hx; apply (Hclean x Hx)).
  pose proof (@syncEffect_own_param _ _ _ _ Hw Hs) as Hown.
  unfold UrlSync.urlChangeEffect, UrlSync.initialSelection.
  repeat apply conj.
  - rewrite Hown. apply urlChangeUpdate_own_param; assumption.
  - rewrite Hown, (initFromUrl_urlParamOf selected Hc).
    apply of_array_wf, Hwf.
  - intros other others Hne. rewrite (@syncEffect_get_all _ _ _ _ Hs).
    apply jsstring_eqb_neq in Hne. rewrite Hne. reflexivity.
Qed.

(** [onUrlUpdate] sets [q] to a non-empty query, converted to a
    [USVString] (a well-formed query is stored as it is), and removes it
    for the empty one; the facet parameters [sources] and [types], and
    every parameter of another name, read as before. *)
Theorem onUrlUpdate_touches_q_only :
  forall (q : jsstring) (location : UrlSearchParams.t),
    UrlSearchParams.get UrlSync.qKey (UrlSync.onUrlUpdate q location)
    = (if JsString.truthy q then Some (UrlSearchParams.toUSVString q)
       else None) /\
    (UrlSearchParams.isWellFormed q = true ->
     UrlSearchParams.get UrlSync.qKey (UrlSync.onUrlUpdate q location)
     = (if JsString.truthy q then Some q else None)) /\
    (forall k,
        UrlSearchParams.toUSVString k
        <> UrlSearchParams.toUSVString UrlSync.qKey ->
        UrlSearchParams.get k (UrlSync.onUrlUpdate q location)
        = UrlSearchParams.get k location) /\
    UrlSearchParams.get UrlSync.sourcesKey (UrlSync.onUrlUpdate q location)
    = UrlSearchParams.get UrlSync.sourcesKey location /\
    UrlSearchParams.get UrlSync.typesKey (UrlSync.onUrlUpdate q location)
    = UrlSearchParams.get UrlSync.typesKey location.
Proof.
  intros q location.
  assert (Hget : forall k,
             UrlSearchParams.get k (UrlSync.onUrlUpdate q location)
             = if JsString.eqb (UrlSearchParams.toUSVString k)
                    (UrlSearchParams.toUSVString UrlSync.qKey)
               then (if JsString.truthy q
                     then Some (UrlSearchParams.toUSVString q) else None)
               else UrlSearchParams.get k location).
  { intros k. unfold UrlSync.onUrlUpdate.
    destruct (JsString.truthy q);
      [rewrite usp_get_set|rewrite usp_get_delete]; reflexivity. }
  repeat apply conj.
  - rewrite Hget, jsstring_eqb_refl. reflexivity.
  - intros Hq. rewrite Hget, jsstring_eqb_refl.
    rewrite (@toUSVString_wellFormed q Hq). reflexivity.
  - intros k Hne. rewrite Hget. apply jsstring_eqb_neq in Hne.
    rewrite Hne. reflexivity.
  - rewrite Hget. reflexivity.
  - rewrite Hget. reflexivity.
Qed.

(** ** The round trip and the reconciliation through the URL *)

(** C5 (amended): for a selection whose values are non-empty, hold no comma
    and are well-formed (no unpaired surrogate), the parameter the sync
    effect writes is the comma-joined selection, and parsing it back (split
    on comma, empty segments dropped) gives a set with the same members,
    in any order of the selection; the selection being a set, it gives the
    same values in the same order.  The empty selection removes the
    parameter and parses back as empty. *)
Theorem url_round_trip_well_formed_without_commas :
  forall (key : jsstring) (searchParams : UrlSearchParams.t)
         (selected : JsSet.t),
    (forall x, In x selected ->
               x <> [] /\ ~ In JsString.comma x
               /\ UrlSearchParams.isWellFormed x = true) ->
    exists params',
      UrlSync.syncEffect key false searchParams selected
      = (false, Some params') /\
      UrlSearchParams.get key params' = Facet.urlParamOf selected /\
      JsSet.equiv (UrlSync.initialSelection key params') selected /\
      (JsSet.wf selected ->
       UrlSync.initialSelection key params' = selected) /\
      (selected = [] -> UrlSearchParams.get key params' = None).
Proof.
  intros key searchParams selected Hclean.
  assert (Hc : forall x, In x selected -> x <> [] /\ ~ In JsString.comma x)
    by (intros x Hx; destruct (Hclean x Hx) as (H1 & H2 & _); auto).
  assert (Hw : forall x, In x selected ->
                         UrlSearchParams.isWellFormed x = true)
    by (intros x Hx; apply (Hclean x Hx)).
  destruct (syncEffect_get key key searchParams selected) as (params' & Hs & _).
  exists params'. split; [exact Hs|].
  pose proof (@syncEffect_own_param _ _ _ _ Hw Hs) as Hown.
  unfold UrlSync.initialSelection. rewrite Hown.
  rewrite (initFromUrl_urlParamOf selected Hc).
  repeat apply conj.
  - reflexivity.
  - intros x. apply has_of_array.
  - apply of_array_wf.
  - intros ->. reflexivity.
Qed.

(** C5, as stated, fails on a value that holds a comma and on a value that
    holds an unpaired surrogate.  The selection of the one type value [a,b]
    is written as the parameter [a,b], which parses back as the two values
    [a] and [b].  The selection of the one value made of the lead surrogate
    U+D800 (non-empty, no comma) is stored by [URLSearchParams.set] as
    U+FFFD and parses back as that other value. *)
Lemma url_round_trip_fails_on_comma_or_lone_surrogate :
  (forall x,
      In x (UseTypeBadges.toggleType (JsString.of_string "a,b") JsSet.empty) ->
      x <> []) /\
  Facet.urlParamOf
    (UseTypeBadges.toggleType (JsString.of_string "a,b") JsSet.empty)
  = Some (JsString.of_string "a,b") /\
  UrlSync.syncEffect UrlSync.typesKey false []
    (UseTypeBadges.toggleType (JsString.of_string "a,b") JsSet.empty)
  = (false, Some [(UrlSync.typesKey, JsString.of_string "a,b")]) /\
  UrlSync.initialSelection UrlSync.typesKey
    [(UrlSync.typesKey, JsString.of_string "a,b")]
  = [JsString.of_string "a"; JsString.of_string "b"] /\
  ~ JsSet.equiv
      (UrlSync.initialSelection UrlSync.typesKey
         [(UrlSync.typesKey, JsString.of_string "a,b")])
      (UseTypeBadges.toggleType (JsString.of_string "a,b") JsSet.empty) /\
  (forall x,
      In x (UseTypeBadges.toggleType [55296%N] JsSet.empty) ->
      x <> [] /\ ~ In JsString.comma x) /\
  UrlSync.syncEffect UrlSync.typesKey false []
    (UseTypeBadges.toggleType [55296%N] JsSet.empty)
  = (false, Some [(UrlSync.typesKey, [65533%N])]) /\
  UrlSync.initialSelection UrlSync.typesKey [(UrlSync.typesKey, [65533%N])]
  = [[65533%N]] /\
  ~ JsSet.equiv
      (UrlSync.initialSelection UrlSync.typesKey
         [(UrlSync.typesKey, [65533%N])])
      (UseTypeBadges.toggleType [55296%N] JsSet.empty).
Proof.
  repeat apply conj.
  - intros x [<-|[]]. discriminate.
  - reflexivity.
  - reflexivity.
  - reflexivity.
  - intros H. specialize (H (JsString.of_string "a,b")). discriminate.
  - intros x [<-|[]]. split; [discriminate|].
    intros [H|[]]. discriminate.
  - reflexivity.
  - reflexivity.
  - intros H. specialize (H [55296%N]). discriminate.
Qed.

(** C6 (amended): the URL-change effect calls the state setter, with the
    set parsed from the URL parameter, exactly when that set and the
    current selection are not the same set; when they are the same set the
    setter is not called and the selection stays as it is.  An outbound
    navigation is made all the same: the sync effect of the hook runs on
    the same change of the URL parameters and, once past its first run,
    calls [router.replace] with the current selection written into its
    parameter, whether the two sets are equal or not. *)
Theorem urlChange_updates_iff_differs_and_sync_navigates :
  forall (param : option jsstring) (key : jsstring)
         (searchParams : UrlSearchParams.t) (selected : JsSet.t),
    JsSet.wf selected ->
    (Facet.urlChangeUpdate param selected = Some (Facet.initFromUrl param)
     <-> ~ JsSet.equiv selected (Facet.initFromUrl param)) /\
    (Facet.urlChangeUpdate param selected = None
     <-> JsSet.equiv selected (Facet.initFromUrl param)) /\
    (JsSet.equiv selected (Facet.initFromUrl param) ->
     Facet.urlChange param selected = selected) /\
    (~ JsSet.equiv selected (Facet.initFromUrl param) ->
     Facet.urlChange param selected = Facet.initFromUrl param) /\
    UrlSync.effectsOnUrlChange key true searchParams selected
    = ((false, None),
       Facet.urlChangeUpdate (UrlSearchParams.get key searchParams) selected) /\
    exists params',
      UrlSync.effectsOnUrlChange key false searchParams selected
      = ((false, Some params'),
         Facet.urlChangeUpdate (UrlSearchParams.get key searchParams)
           selected) /\
      UrlSearchParams.get key params'
      = option_map UrlSearchParams.toUSVString (Facet.urlParamOf selected).
Proof.
  intros param key searchParams selected Hwf.
  assert (Hnav : exists params',
             UrlSync.effectsOnUrlChange key false searchParams selected
             = ((false, Some params'),
                Facet.urlChangeUpdate (UrlSearchParams.get key searchParams)
                  selected) /\
             UrlSearchParams.get key params'
             = option_map UrlSearchParams.toUSVString
                 (Facet.urlParamOf selected)).
  { destruct (syncEffect_get key key searchParams selected)
      as (params' & Hs & Hk).
    exists params'. unfold UrlSync.effectsOnUrlChange. rewrite Hs.
    split; [reflexivity|].
    rewrite Hk, jsstring_eqb_refl. reflexivity. }
  assert (Hset : (Facet.urlChangeUpdate param selected
                  = Some (Facet.initFromUrl param)
                  <-> ~ JsSet.equiv selected (Facet.initFromUrl param)) /\
                 (Facet.urlChangeUpdate param selected = None
                  <-> JsSet.equiv selected (Facet.initFromUrl param)) /\
                 (JsSet.equiv selected (Facet.initFromUrl param) ->
                  Facet.urlChange param selected = selected) /\
                 (~ JsSet.equiv selected (Facet.initFromUrl param) ->
                  Facet.urlChange param selected = Facet.initFromUrl param)).
  { rewrite <- urlSet_initFromUrl.
    pose proof (@urlChange_test selected (Facet.urlSet param) Hwf
                  (wf_of_array _)) as Htest.
    unfold Facet.urlChange, Facet.urlChangeUpdate, JsSet.to_array in *.
    destruct (negb (length selected =? length (Facet.urlSet param))
              || negb (forallb (fun s => JsSet.has s (Facet.urlSet param))
                         selected)) eqn:E.
    - assert (Hn : ~ JsSet.equiv selected (Facet.urlSet param)).
      { intros He. apply Htest in He. discriminate. }
      repeat split; try tauto; try discriminate.
    - assert (He : JsSet.equiv selected (Facet.urlSet param))
        by (apply Htest; reflexivity).
      repeat split; try tauto; try discriminate. }
  destruct Hset as (H1 & H2 & H3 & H4).
  exact (conj H1 (conj H2 (conj H3 (conj H4 (conj eq_refl Hnav))))).
Qed.

(** C6, as stated, fails on its conclusion about navigation: with the URL
    parameter [sources=X,Y] and the selection of X and Y the two sets are
    equal and the URL-change effect issues no update, yet the sync effect,
    run on the same change of the URL parameters, navigates, to the very
    parameters the URL already has. *)
Lemma urlChange_quiet_yet_sync_navigates :
  JsSet.equiv [JsString.of_string "X"; JsString.of_string "Y"]
    (UrlSync.initialSelection UrlSync.sourcesKey
       [(UrlSync.sourcesKey, JsString.of_string "X,Y")]) /\
  UrlSync.urlChangeEffect UrlSync.sourcesKey
    [(UrlSync.sourcesKey, JsString.of_string "X,Y")]
    [JsString.of_string "X"; JsString.of_string "Y"] = None /\
  UrlSync.effectsOnUrlChange UrlSync.sourcesKey false
    [(UrlSync.sourcesKey, JsString.of_string "X,Y")]
    [JsString.of_string "X"; JsString.of_string "Y"]
  = ((false, Some [(UrlSync.sourcesKey, JsString.of_string "X,Y")]), None).
Proof.
  repeat apply conj; try reflexivity.
  intros x. reflexivity.
Qed.

(** ** More on the type badges *)

Lemma jsmap_keys_set_add (k : jsstring) (v : nat) (m : JsMap.t) :
  map fst (JsMap.set k v m) = JsSet.add k (map fst m).
Proof.
  unfold JsSet.add. induction m as [|[k0 v0] m IH]; simpl; [reflexivity|].
  destruct (JsString.eqb k k0) eqn:E; simpl.
  - apply jsstring_eqb_eq in E; subst k0. reflexivity.
  - rewrite IH. destruct (JsSet.has k (map fst m)); reflexivity.
Qed.

Lemma jsmap_sum_increment (k : jsstring) (m : JsMap.t) :
  list_sum (map snd (JsMap.set k (JsMap.orZero (JsMap.get k m) + 1) m))
  = list_sum (map snd m) + 1.
Proof.
  induction m as [|[k0 v0] m IH]; simpl; [reflexivity|].
  destruct (JsString.eqb k k0) eqn:E; simpl.
  - lia.
  - rewrite IH. lia.
Qed.

Section SortSum.
Variable A : Type.
Variable compareFn : A -> A -> Z.
Variable f : A -> nat.

Lemma insert_sum (x : A) (l : list A) :
  list_sum (map f (JsArray.insert compareFn x l)) = f x + list_sum (map f l).
Proof.
  induction l as [|y l IH]; simpl; [reflexivity|].
  destruct (0 <? compareFn x y)%Z; simpl; [rewrite IH; lia|reflexivity].
Qed.

Lemma sort_sum (l : list A) :
  list_sum (map f (JsArray.sort compareFn l)) = list_sum (map f l).
Proof.
  induction l as [|x l IH]; simpl; [reflexivity|].
  rewrite insert_sum, IH. reflexivity.
Qed.

End SortSum.

Lemma length_le_sum (A : Type) (f : A -> nat) (l : list A) :
  (forall x, In x l -> 1 <= f x) -> length l <= list_sum (map f l).
Proof.
  induction l as [|a l IH]; simpl; intros H; [lia|].
  pose proof (H a (or_introl eq_refl)).
  assert (length l <= list_sum (map f l)) by (apply IH; intros x Hx; apply H; right; exact Hx).
  lia.
Qed.

Section MoreTypeBadgeFacts.
Variable T : Type.
Variable type_name : T -> option jsstring.

Lemma fold_countVideo_sum (videos : list T) (m : JsMap.t) :
  list_sum (map snd (fold_left (UseTypeBadges.countVideo type_name) videos m))
  = list_sum (map snd m) + length (filter (Item.typed type_name) videos).
Proof.
  revert m; induction videos as [|v videos IH]; intros m; simpl; [lia|].
  rewrite IH, countVideo_typeKey, typeKey_typed.
  destruct (Item.typeKey type_name v); simpl; [|lia].
  rewrite jsmap_sum_increment. lia.
Qed.

Lemma fold_countVideo_order (videos : list T) (m : JsMap.t) :
  map fst (fold_left (UseTypeBadges.countVideo type_name) videos m)
  = fold_left (fun s x => JsSet.add x s)
      (Encounter.typeValues type_name videos) (map fst m).
Proof.
  revert m; induction videos as [|v videos IH]; intros m; simpl; [reflexivity|].
  rewrite IH, countVideo_typeKey, fold_left_app.
  destruct (Item.typeKey type_name v); simpl; [|reflexivity].
  rewrite jsmap_keys_set_add. reflexivity.
Qed.

Lemma typeBadges_item (videos : list T) (b : UseTypeBadges.TypeBadge) :
  In b (UseTypeBadges.typeBadges type_name videos) ->
  exists v, In v videos /\
            Item.typeKey type_name v = Some (UseTypeBadges.type b).
Proof.
  intros H. apply typeBadges_In in H. apply (in_map fst) in H. simpl in H.
  apply fold_countVideo_keys in H. destruct H as [[]|H]. exact H.
Qed.

Lemma typeBadges_count_positive (videos : list T) (b : UseTypeBadges.TypeBadge) :
  In b (UseTypeBadges.typeBadges type_name videos) ->
  1 <= UseTypeBadges.count b.
Proof.
  intros H. destruct (typeBadges_item _ _ H) as (v & Hv & Hk).
  destruct (typeBadges_count _ _ _ H) as [Hne ->].
  assert (Hin : In v (filter (Item.hasType type_name (UseTypeBadges.type b))
                        videos)).
  { apply filter_In. split; [exact Hv|].
    rewrite (hasType_typeKey _ v Hne), Hk. apply jsstring_eqb_refl. }
  destruct (filter _ videos); [destruct Hin|simpl; lia].
Qed.

End MoreTypeBadgeFacts.

(** The counts of the type badges add up to the number of items that have
    a non-blank [type_name]; no badge has count zero; there are badges
    exactly when some item has a non-blank [type_name], and never more
    badges than such items. *)
Theorem typeBadges_counts_add_up :
  forall (T : Type) (type_name : T -> option jsstring) (videos : list T),
    list_sum (map UseTypeBadges.count
                (UseTypeBadges.typeBadges type_name videos))
    = length (filter (Item.typed type_name) videos) /\
    (forall b, In b (UseTypeBadges.typeBadges type_name videos) ->
               1 <= UseTypeBadges.count b) /\
    length (UseTypeBadges.typeBadges type_name videos)
    <= length (filter (Item.typed type_name) videos) /\
    (UseTypeBadges.typeBadges type_name videos = []
     <-> filter (Item.typed type_name) videos = []).
Proof.
  intros T type_name videos.
  assert (Hsum : list_sum (map UseTypeBadges.count
                             (UseTypeBadges.typeBadges type_name videos))
                 = length (filter (Item.typed type_name) videos)).
  { rewrite typeBadges_unfold, sort_sum, map_map.
    rewrite (map_ext _ snd) by reflexivity.
    unfold UseTypeBadges.typeMapOf.
    rewrite (fold_countVideo_sum type_name videos JsMap.empty). reflexivity. }
  assert (Hpos : forall b,
             In b (UseTypeBadges.typeBadges type_name videos) ->
             1 <= UseTypeBadges.count b)
    by (intros b; apply typeBadges_count_positive).
  pose proof (length_le_sum UseTypeBadges.count _ Hpos) as Hlen.
  repeat apply conj.
  - exact Hsum.
  - exact Hpos.
  - lia.
  - intros E. rewrite E in Hsum. simpl in Hsum.
    destruct (filter _ videos); [reflexivity|discriminate].
  - intros E. rewrite E in Hsum. simpl in Hsum.
    destruct (UseTypeBadges.typeBadges type_name videos); [reflexivity|].
    simpl in Hlen, Hsum. lia.
Qed.

(** The Map behind the badges holds the distinct type values in the order
    the items first show them; the sort keeps that order among badges of
    the same count. *)
Theorem typeBadges_ties_in_encounter_order :
  forall (T : Type) (type_name : T -> option jsstring) (videos : list T),
    map fst (JsMap.entries (UseTypeBadges.typeMapOf type_name videos))
    = JsSet.of_array (Encounter.typeValues type_name videos) /\
    (forall n,
        map UseTypeBadges.type
          (filter (fun b => UseTypeBadges.count b =? n)
             (UseTypeBadges.typeBadges type_name videos))
        = map fst
            (filter (fun e => snd e =? n)
               (JsMap.entries (UseTypeBadges.typeMapOf type_name videos)))).
Proof.
  intros T type_name videos. split.
  - unfold JsMap.entries, UseTypeBadges.typeMapOf, JsSet.of_array.
    apply (fold_countVideo_order type_name videos JsMap.empty).
  - intros n. rewrite typeBadges_unfold.
    rewrite (sort_stable UseTypeBadges.count).
    unfold JsMap.entries.
    induction (UseTypeBadges.typeMapOf type_name videos) as [|[k c] m IH];
      simpl; [reflexivity|].
    destruct (c =? n); simpl; rewrite IH; reflexivity.
Qed.

(** Steady state of the type hook: after auto-cleanup against the badges
    of the current items (when there are badges), every selected value is
    the type value of an item, and that item passes the filter; so a
    non-empty cleaned selection never filters everything away. *)
Theorem cleaned_selection_matches_items :
  forall (T : Type) (type_name : T -> option jsstring) (videos : list T)
         (selected : JsSet.t),
    UseTypeBadges.typeBadges type_name videos <> [] ->
    (forall x,
        In x (UseTypeBadges.autoCleanup
                (UseTypeBadges.typeBadges type_name videos) selected) ->
        exists v,
          In v videos /\ Item.typeValue type_name v = Some x /\
          In v (UseTypeBadges.filteredVideos type_name videos
                  (UseTypeBadges.autoCleanup
                     (UseTypeBadges.typeBadges type_name videos) selected))) /\
    (UseTypeBadges.autoCleanup
       (UseTypeBadges.typeBadges type_name videos) selected <> [] ->
     UseTypeBadges.filteredVideos type_name videos
       (UseTypeBadges.autoCleanup
          (UseTypeBadges.typeBadges type_name videos) selected) <> []).
Proof.
  intros T type_name videos selected Hne.
  set (s' := UseTypeBadges.autoCleanup
               (UseTypeBadges.typeBadges type_name videos) selected).
  assert (Hmain : forall x, In x s' ->
            exists v, In v videos /\ Item.typeValue type_name v = Some x /\
                      In v (UseTypeBadges.filteredVideos type_name videos s')).
  { intros x Hx.
    assert (Hb : In x (map UseTypeBadges.type
                         (UseTypeBadges.typeBadges type_name videos))).
    { apply has_In in Hx. unfold s', UseTypeBadges.autoCleanup in Hx.
      rewrite has_autoCleanup in Hx.
      - apply andb_true_iff in Hx. apply has_In, Hx.
      - destruct (UseTypeBadges.typeBadges type_name videos);
          [congruence|discriminate]. }
    apply in_map_iff in Hb. destruct Hb as (b & <- & Hb).
    destruct (typeBadges_item _ _ _ Hb) as (v & Hv & Hk).
    apply typeKey_typeValue in Hk. destruct Hk as [Hnil Hval].
    exists v. repeat split; [exact Hv|exact Hval|].
    apply type_filter_In; [intros E; rewrite E in Hx; destruct Hx|].
    split; [exact Hv|].
    unfold Item.typeValue in Hval.
    destruct (type_name v) as [tn|]; [|discriminate].
    simpl in Hval. injection Hval as Hval.
    exists tn. repeat split.
    - apply trim_nonempty_raw. congruence.
    - rewrite Hval. exact Hx. }
  split; [exact Hmain|].
  intros Hs. destruct s' as [|x s''] eqn:E; [congruence|].
  destruct (Hmain x (or_introl eq_refl)) as (v & _ & _ & Hin).
  intros E'. rewrite E' in Hin. destruct Hin.
Qed.

(** ** More on filtering *)

Lemma filter_comm (A : Type) (p q : A -> bool) (l : list A) :
  filter p (filter q l) = filter q (filter p l).
Proof.
  induction l as [|a l IH]; simpl; [reflexivity|].
  destruct (p a) eqn:P, (q a) eqn:Q; simpl;
    rewrite ?P, ?Q, IH; reflexivity.
Qed.

(** Filtering is idempotent, never lengthens the list, and the source
    filter and the type filter give the same items in either order. *)
Theorem filters_idempotent_and_commute :
  forall (T : Type) (source type_name : T -> option jsstring)
         (videos : list T) (selectedSources selectedTypes : JsSet.t),
    UseSourceBadges.filteredVideos source
      (UseSourceBadges.filteredVideos source videos selectedSources)
      selectedSources
    = UseSourceBadges.filteredVideos source videos selectedSources /\
    UseTypeBadges.filteredVideos type_name
      (UseTypeBadges.filteredVideos type_name videos selectedTypes)
      selectedTypes
    = UseTypeBadges.filteredVideos type_name videos selectedTypes /\
    UseSourceBadges.filteredVideos source
      (UseTypeBadges.filteredVideos type_name videos selectedTypes)
      selectedSources
    = UseTypeBadges.filteredVideos type_name
        (UseSourceBadges.filteredVideos source videos selectedSources)
        selectedTypes /\
    length (UseSourceBadges.filteredVideos source videos selectedSources)
    <= length videos /\
    length (UseTypeBadges.filteredVideos type_name videos selectedTypes)
    <= length videos.
Proof.
  intros T source type_name videos ss st.
  unfold UseSourceBadges.filteredVideos, UseTypeBadges.filteredVideos.
  destruct (JsSet.size ss =? 0), (JsSet.size st =? 0);
    repeat apply conj;
    auto using filter_idem, filter_comm, filter_length_le.
Qed.

(** ** More on the search controller *)

Lemma forallb_filter_same (A : Type) (p : A -> bool) (l : list A) :
  forallb p (filter p l) = true.
Proof.
  induction l as [|a l IH]; simpl; [reflexivity|].
  destruct (p a) eqn:E; simpl; [rewrite E|]; exact IH.
Qed.

Lemma nonblank_truthy (q : jsstring) :
  JsString.blank q = false -> JsString.truthy q = true.
Proof. destruct q; [discriminate|reflexivity]. Qed.

Section ControllerMore.
Variable SortOption : Type.
Variable sortEqb : SortOption -> SortOption -> bool.
Variable Source : Type.
Variable enabled : Source -> bool.
Variable Result : Type.
Variable AvailableSource : Type.

Let State := UseHomePage.State SortOption Source Result AvailableSource.
Let SettingsT := Settings.t Source SortOption.
Let CachedT := Cached.t Result AvailableSource.

Lemma executeSearch_run (settings : SettingsT) (q : jsstring) (st : State) :
  UseHomePage.executeSearch enabled settings q st
  = if negb (JsString.blank q) && Step.hasSources enabled settings
    then (true, Step.searching enabled settings q st)
    else (false, st).
Proof.
  unfold UseHomePage.executeSearch, Step.hasSources, Step.searching.
  rewrite truthy_trim.
  destruct (JsString.blank q); simpl; [reflexivity|].
  destruct (filter enabled (Settings.sources settings)); reflexivity.
Qed.

Lemma handleSearch_run (settings : SettingsT) (q : jsstring) (st : State) :
  UseHomePage.handleSearch enabled settings q st
  = (tt,
     if JsString.blank q then st
     else if Step.hasSources enabled settings
          then Step.searching enabled settings q (Step.submitted q st)
          else Step.submitted q st).
Proof.
  unfold UseHomePage.handleSearch. rewrite truthy_trim.
  destruct (JsString.blank q) eqn:B; simpl; [reflexivity|].
  unfold UseHomePage.bind, UseHomePage.setQuery, UseHomePage.setHasSearched.
  rewrite executeSearch_run, B. simpl.
  destruct (Step.hasSources enabled settings); reflexivity.
Qed.

Lemma sound_searching (settings : SettingsT) (q : jsstring) (st : State) :
  JsString.blank q = false -> Step.hasSources enabled settings = true ->
  forallb (Trace.sound enabled) (UseHomePage.calls st) = true ->
  forallb (Trace.sound enabled)
    (UseHomePage.calls (Step.searching enabled settings q st)) = true.
Proof.
  intros B Hs H. simpl. rewrite forallb_app, H. simpl.
  rewrite B. unfold Step.hasSources in Hs. rewrite Hs, forallb_filter_same.
  reflexivity.
Qed.

Lemma sound_executeSearch (settings : SettingsT) (q : jsstring) (st : State) :
  forallb (Trace.sound enabled) (UseHomePage.calls st) = true ->
  forallb (Trace.sound enabled)
    (UseHomePage.calls (snd (UseHomePage.executeSearch enabled settings q st)))
  = true.
Proof.
  intros H. rewrite executeSearch_run.
  destruct (JsString.blank q) eqn:B; simpl; [exact H|].
  destruct (Step.hasSources enabled settings) eqn:Hs; simpl; [|exact H].
  apply sound_searching; assumption.
Qed.

Lemma sound_handleSearch (settings : SettingsT) (q : jsstring) (st : State) :
  forallb (Trace.sound enabled) (UseHomePage.calls st) = true ->
  forallb (Trace.sound enabled)
    (UseHomePage.calls (snd (UseHomePage.handleSearch enabled settings q st)))
  = true.
Proof.
  intros H. rewrite handleSearch_run. simpl.
  destruct (JsString.blank q) eqn:B; [exact H|].
  destruct (Step.hasSources enabled settings) eqn:Hs; [|exact H].
  apply sound_searching; assumption.
Qed.

(** Every [performSearch] call, by whichever handler or effect, is made on
    a query that is not blank and on a non-empty list of sources that are
    all enabled: a trace of such calls stays one under every step. *)
Theorem performSearch_only_when_searchable :
  forall (settings : SettingsT) (q : jsstring) (urlQuery : option jsstring)
         (cached : option CachedT) (loading : bool) (nresults : nat)
         (st : State),
    forallb (Trace.sound enabled) (UseHomePage.calls st) = true ->
    forallb (Trace.sound enabled)
      (UseHomePage.calls
         (snd (UseHomePage.executeSearch enabled settings q st))) = true /\
    forallb (Trace.sound enabled)
      (UseHomePage.calls
         (snd (UseHomePage.handleSearch enabled settings q st))) = true /\
    forallb (Trace.sound enabled)
      (UseHomePage.calls
         (snd (UseHomePage.updateSettings sortEqb enabled settings loading st)))
    = true /\
    forallb (Trace.sound enabled)
      (UseHomePage.calls
         (snd (UseHomePage.loadCacheEffect enabled settings urlQuery cached st)))
    = true /\
    forallb (Trace.sound enabled)
      (UseHomePage.calls (snd (UseHomePage.handleReset st))) = true /\
    forallb (Trace.sound enabled)
      (UseHomePage.calls (snd (UseHomePage.resortEffect nresults st))) = true.
Proof.
  intros settings q urlQuery cached loading nresults st H.
  repeat apply conj.
  - apply sound_executeSearch, H.
  - apply sound_handleSearch, H.
  - unfold UseHomePage.updateSettings, UseHomePage.updateSettingsCallback,
    UseHomePage.bind, UseHomePage.getState.
    destruct (negb (sortEqb (Settings.sortBy settings)
                      (UseHomePage.currentSortBy st))); simpl.
    + destruct (JsString.truthy (UseHomePage.query st)
                && (0 <? length (filter enabled (Settings.sources settings)))
                && negb (UseHomePage.hasSearchedWithSourcesRef st)
                && negb loading); simpl; [|exact H].
      match goal with
      | |- context [UseHomePage.executeSearch enabled settings ?q0 ?s0] =>
          pose proof (@sound_executeSearch settings q0 s0 H) as Hx;
          destruct (UseHomePage.executeSearch enabled settings q0 s0)
            as [[|] s1]
      end; simpl in *; exact Hx.
    + destruct (JsString.truthy (UseHomePage.query st)
                && (0 <? length (filter enabled (Settings.sources settings)))
                && negb (UseHomePage.hasSearchedWithSourcesRef st)
                && negb loading); simpl; [|exact H].
      match goal with
      | |- context [UseHomePage.executeSearch enabled settings ?q0 ?s0] =>
          pose proof (@sound_executeSearch settings q0 s0 H) as Hx;
          destruct (UseHomePage.executeSearch enabled settings q0 s0)
            as [[|] s1]
      end; simpl in *; exact Hx.
  - unfold UseHomePage.loadCacheEffect, UseHomePage.bind, UseHomePage.getState.
    destruct (UseHomePage.hasLoadedCache st); simpl; [exact H|].
    destruct urlQuery as [uq|]; simpl; [|exact H].
    destruct (JsString.truthy uq); simpl; [|exact H].
    assert (Hh : forall s0 : State,
               forallb (Trace.sound enabled) (UseHomePage.calls s0) = true ->
               forallb (Trace.sound enabled)
                 (UseHomePage.calls
                    (snd (UseHomePage.handleSearch enabled settings uq s0)))
               = true) by (intros s0; apply sound_handleSearch).
    destruct cached as [c|]; [|apply Hh; exact H].
    destruct (JsString.eqb (Cached.query c) uq
              && (0 <? length (Cached.results c)));
      [|apply Hh; exact H].
    simpl. rewrite forallb_app, H. reflexivity.
  - simpl. rewrite !forallb_app, H. reflexivity.
  - unfold UseHomePage.resortEffect, UseHomePage.bind, UseHomePage.getState.
    destruct (UseHomePage.hasSearched st && (0 <? nresults)); simpl;
      [|exact H].
    rewrite forallb_app, H. reflexivity.
Qed.

End ControllerMore.

Section ControllerFlows.
Variable SortOption : Type.
Variable sortEqb : SortOption -> SortOption -> bool.
Variable Source : Type.
Variable enabled : Source -> bool.
Variable Result : Type.
Variable AvailableSource : Type.

Let State := UseHomePage.State SortOption Source Result AvailableSource.
Let SettingsT := Settings.t Source SortOption.
Let CachedT := Cached.t Result AvailableSource.

Lemma updateSettingsCallback_effect (capturedQuery : jsstring)
  (capturedSortBy : SortOption) (loading : bool) (settings : SettingsT)
  (st : State) :
  UseHomePage.query
    (snd (UseHomePage.updateSettingsCallback sortEqb enabled capturedQuery
            capturedSortBy loading settings st))
  = UseHomePage.query st /\
  UseHomePage.hasLoadedCache
    (snd (UseHomePage.updateSettingsCallback sortEqb enabled capturedQuery
            capturedSortBy loading settings st))
  = UseHomePage.hasLoadedCache st /\
  UseHomePage.currentSortBy
    (snd (UseHomePage.updateSettingsCallback sortEqb enabled capturedQuery
            capturedSortBy loading settings st))
  = (if sortEqb (Settings.sortBy settings) capturedSortBy
     then UseHomePage.currentSortBy st else Settings.sortBy settings) /\
  UseHomePage.calls
    (snd (UseHomePage.updateSettingsCallback sortEqb enabled capturedQuery
            capturedSortBy loading settings st))
  = (if negb (JsString.blank capturedQuery)
        && Step.hasSources enabled settings
        && negb (UseHomePage.hasSearchedWithSourcesRef st)
        && negb loading
     then UseHomePage.calls st
          ++ [UseHomePage.PerformSearch Result AvailableSource capturedQuery
                (filter enabled (Settings.sources settings))
                (Settings.sortBy settings)]
     else UseHomePage.calls st) /\
  UseHomePage.hasSearchedWithSourcesRef
    (snd (UseHomePage.updateSettingsCallback sortEqb enabled capturedQuery
            capturedSortBy loading settings st))
  = (negb (JsString.blank capturedQuery)
     && Step.hasSources enabled settings
     && negb (UseHomePage.hasSearchedWithSourcesRef st)
     && negb loading
     || UseHomePage.hasSearchedWithSourcesRef st) /\
  UseHomePage.hasSearched
    (snd (UseHomePage.updateSettingsCallback sortEqb enabled capturedQuery
            capturedSortBy loading settings st))
  = (negb (JsString.blank capturedQuery)
     && Step.hasSources enabled settings
     && negb (UseHomePage.hasSearchedWithSourcesRef st)
     && negb loading
     || UseHomePage.hasSearched st).
Proof.
  destruct st as [q hs cs hl la cl].
  unfold UseHomePage.updateSettingsCallback, UseHomePage.bind,
    UseHomePage.getState.
  simpl.
  fold (Step.hasSources enabled settings).
  destruct (JsString.blank capturedQuery) eqn:B;
    destruct (Step.hasSources enabled settings) eqn:Hs;
    destruct la; destruct loading; destruct hs;
    destruct (JsString.truthy capturedQuery) eqn:Tq;
    try (rewrite (nonblank_truthy capturedQuery B) in Tq; discriminate);
    destruct (sortEqb (Settings.sortBy settings) capturedSortBy) eqn:Es;
    simpl in *; rewrite ?executeSearch_run, ?B, ?Hs; simpl;
    repeat split; reflexivity.
Qed.

(** A settings notification runs the callback of the last effect run, a
    closure over the query, the sort preference and the loading flag of
    that render.  Given that the sort comparison is equality, it stores the
    settings' sort preference when that differs from the captured one, and
    leaves the query and the one-shot flag alone.  It issues the pending
    search, on the captured query and the enabled sources, exactly when
    the captured query is not blank, a source is enabled, the latch (read
    live) is unset and the captured flag says nothing is loading; it then
    sets the latch and [hasSearched].  Otherwise it makes no call and
    leaves the latch and [hasSearched] as they are.  A call it makes is on
    a non-blank query and enabled sources.  Through the callback of an
    effect run on the current state the sort preference ends as the
    settings'. *)
Theorem updateSettingsCallback_fires_pending_search :
  forall (capturedQuery : jsstring) (capturedSortBy : SortOption)
         (loading : bool) (settings : SettingsT) (st : State),
    (forall a b, sortEqb a b = true <-> a = b) ->
    (Settings.sortBy settings <> capturedSortBy ->
     UseHomePage.currentSortBy
       (snd (UseHomePage.updateSettingsCallback sortEqb enabled capturedQuery
               capturedSortBy loading settings st))
     = Settings.sortBy settings) /\
    (Settings.sortBy settings = capturedSortBy ->
     UseHomePage.currentSortBy
       (snd (UseHomePage.updateSettingsCallback sortEqb enabled capturedQuery
               capturedSortBy loading settings st))
     = UseHomePage.currentSortBy st) /\
    UseHomePage.query
      (snd (UseHomePage.updateSettingsCallback sortEqb enabled capturedQuery
              capturedSortBy loading settings st))
    = UseHomePage.query st /\
    UseHomePage.hasLoadedCache
      (snd (UseHomePage.updateSettingsCallback sortEqb enabled capturedQuery
              capturedSortBy loading settings st))
    = UseHomePage.hasLoadedCache st /\
    (negb (JsString.blank capturedQuery)
     && Step.hasSources enabled settings
     && negb (UseHomePage.hasSearchedWithSourcesRef st)
     && negb loading = true ->
     UseHomePage.calls
       (snd (UseHomePage.updateSettingsCallback sortEqb enabled capturedQuery
               capturedSortBy loading settings st))
     = UseHomePage.calls st
       ++ [UseHomePage.PerformSearch Result AvailableSource capturedQuery
             (filter enabled (Settings.sources settings))
             (Settings.sortBy settings)] /\
     UseHomePage.hasSearchedWithSourcesRef
       (snd (UseHomePage.updateSettingsCallback sortEqb enabled capturedQuery
               capturedSortBy loading settings st))
     = true /\
     UseHomePage.hasSearched
       (snd (UseHomePage.updateSettingsCallback sortEqb enabled capturedQuery
               capturedSortBy loading settings st))
     = true) /\
    (negb (JsString.blank capturedQuery)
     && Step.hasSources enabled settings
     && negb (UseHomePage.hasSearchedWithSourcesRef st)
     && negb loading = false ->
     UseHomePage.calls
       (snd (UseHomePage.updateSettingsCallback sortEqb enabled capturedQuery
               capturedSortBy loading settings st))
     = UseHomePage.calls st /\
     UseHomePage.hasSearchedWithSourcesRef
       (snd (UseHomePage.updateSettingsCallback sortEqb enabled capturedQuery
               capturedSortBy loading settings st))
     = UseHomePage.hasSearchedWithSourcesRef st /\
     UseHomePage.hasSearched
       (snd (UseHomePage.updateSettingsCallback sortEqb enabled capturedQuery
               capturedSortBy loading settings st))
     = UseHomePage.hasSearched st) /\
    (forallb (Trace.sound enabled) (UseHomePage.calls st) = true ->
     forallb (Trace.sound enabled)
       (UseHomePage.calls
          (snd (UseHomePage.updateSettingsCallback sortEqb enabled
                  capturedQuery capturedSortBy loading settings st)))
     = true) /\
    UseHomePage.updateSettings sortEqb enabled settings loading st
    = UseHomePage.updateSettingsCallback sortEqb enabled
        (UseHomePage.query st) (UseHomePage.currentSortBy st) loading
        settings st /\
    UseHomePage.currentSortBy
      (snd (UseHomePage.updateSettings sortEqb enabled settings loading st))
    = Settings.sortBy settings.
Proof.
  intros capturedQuery capturedSortBy loading settings st Hsort.
  destruct (updateSettingsCallback_effect capturedQuery capturedSortBy
              loading settings st) as (Hq & Hl & Hc & Hcalls & Hla & Hhs).
  rewrite Hq, Hl, Hc, Hcalls, Hla, Hhs.
  repeat apply conj.
  - intros Hne. destruct (sortEqb (Settings.sortBy settings) capturedSortBy)
      eqn:E; [apply Hsort in E; contradiction|reflexivity].
  - intros He. apply Hsort in He. rewrite He. reflexivity.
  - reflexivity.
  - reflexivity.
  - intros Hf. rewrite Hf. repeat split.
  - intros Hf. rewrite Hf. repeat split.
  - intros Hsound.
    destruct (negb (JsString.blank capturedQuery)
              && Step.hasSources enabled settings
              && negb (UseHomePage.hasSearchedWithSourcesRef st)
              && negb loading) eqn:Hf; [|exact Hsound].
    apply andb_true_iff in Hf. destruct Hf as [Hf _].
    apply andb_true_iff in Hf. destruct Hf as [Hf _].
    apply andb_true_iff in Hf. destruct Hf as [Hb Hsrc].
    apply negb_true_iff in Hb.
    rewrite forallb_app, Hsound. simpl. rewrite Hb.
    unfold Step.hasSources in Hsrc. rewrite Hsrc, forallb_filter_same.
    reflexivity.
  - reflexivity.
  - unfold UseHomePage.updateSettings, UseHomePage.bind, UseHomePage.getState.
    destruct (updateSettingsCallback_effect (UseHomePage.query st)
                (UseHomePage.currentSortBy st) loading settings st)
      as (_ & _ & Hc' & _).
    rewrite Hc'.
    destruct (sortEqb (Settings.sortBy settings) (UseHomePage.currentSortBy st))
      eqn:E; [apply Hsort in E; congruence|reflexivity].
Qed.

End ControllerFlows.

Section ControllerScenarios.
Variable SortOption : Type.
Variable sortEqb : SortOption -> SortOption -> bool.
Variable Source : Type.
Variable enabled : Source -> bool.
Variable Result : Type.
Variable AvailableSource : Type.

Let State := UseHomePage.State SortOption Source Result AvailableSource.
Let SettingsT := Settings.t Source SortOption.
Let CachedT := Cached.t Result AvailableSource.

Lemma updateSettings_effect (settings : SettingsT) (loading : bool) (st : State) :
  UseHomePage.query
    (snd (UseHomePage.updateSettings sortEqb enabled settings loading st))
  = UseHomePage.query st /\
  UseHomePage.calls
    (snd (UseHomePage.updateSettings sortEqb enabled settings loading st))
  = (if negb (JsString.blank (UseHomePage.query st))
        && Step.hasSources enabled settings
        && negb (UseHomePage.hasSearchedWithSourcesRef st)
        && negb loading
     then UseHomePage.calls st
          ++ [UseHomePage.PerformSearch Result AvailableSource
                (UseHomePage.query st)
                (filter enabled (Settings.sources settings))
                (Settings.sortBy settings)]
     else UseHomePage.calls st) /\
  UseHomePage.hasSearchedWithSourcesRef
    (snd (UseHomePage.updateSettings sortEqb enabled settings loading st))
  = (negb (JsString.blank (UseHomePage.query st))
     && Step.hasSources enabled settings && negb loading
     || UseHomePage.hasSearchedWithSourcesRef st) /\
  UseHomePage.hasSearched
    (snd (UseHomePage.updateSettings sortEqb enabled settings loading st))
  = (negb (JsString.blank (UseHomePage.query st))
     && Step.hasSources enabled settings
     && negb (UseHomePage.hasSearchedWithSourcesRef st)
     && negb loading
     || UseHomePage.hasSearched st).
Proof.
  destruct st as [q hs cs hl la cl].
  unfold UseHomePage.updateSettings, UseHomePage.updateSettingsCallback,
    UseHomePage.bind, UseHomePage.getState.
  simpl.
  fold (Step.hasSources enabled settings).
  destruct (JsString.blank q) eqn:B;
    destruct (Step.hasSources enabled settings) eqn:Hs;
    destruct la; destruct loading; destruct hs;
    destruct (JsString.truthy q) eqn:Tq;
    try (rewrite (nonblank_truthy q B) in Tq; discriminate);
    destruct (negb (sortEqb (Settings.sortBy settings) cs)) eqn:Es;
    simpl in *; rewrite ?executeSearch_run, ?B, ?Hs; simpl;
    repeat split; reflexivity.
Qed.

Lemma loadCacheEffect_miss (settings : SettingsT) (q : jsstring)
  (cached : option CachedT) (st : State) :
  UseHomePage.hasLoadedCache st = false -> q <> [] ->
  (forall c, cached = Some c ->
             Cached.query c <> q \/ Cached.results c = []) ->
  UseHomePage.loadCacheEffect enabled settings (Some q) cached st
  = UseHomePage.handleSearch enabled settings q (Mount.afterUrlQuery q st).
Proof.
  intros Hl Hq Hmiss. apply truthy_nonempty in Hq.
  unfold UseHomePage.loadCacheEffect, UseHomePage.bind, UseHomePage.getState.
  rewrite Hl. simpl. rewrite Hq. simpl.
  destruct cached as [c|]; [|reflexivity].
  destruct (Hmiss c eq_refl) as [Hc|Hc].
  - apply jsstring_eqb_neq in Hc. rewrite Hc. reflexivity.
  - rewrite Hc. simpl. rewrite andb_false_r. reflexivity.
Qed.

Lemma loadCacheEffect_hit (settings : SettingsT) (q : jsstring)
  (c : CachedT) (st : State) :
  UseHomePage.hasLoadedCache st = false -> q <> [] ->
  Cached.query c = q -> Cached.results c <> [] ->
  UseHomePage.loadCacheEffect enabled settings (Some q) (Some c) st
  = (tt, Mount.restored q c st).
Proof.
  intros Hl Hq Hc Hr. apply truthy_nonempty in Hq.
  unfold UseHomePage.loadCacheEffect, UseHomePage.bind, UseHomePage.getState.
  rewrite Hl. simpl. rewrite Hq. simpl.
  rewrite Hc, jsstring_eqb_refl.
  assert (Hlen : (0 <? length (Cached.results c)) = true)
    by (destruct (Cached.results c); [congruence|reflexivity]).
  rewrite Hlen. reflexivity.
Qed.

(** The deferred search: a mount on a non-blank URL query without a usable
    cache entry and without an enabled source sets the query and
    [hasSearched] and makes no call; the first settings notification that
    brings an enabled source, with nothing loading, then issues exactly one
    [performSearch] on that query, and no later notification issues
    another. *)
Theorem deferred_search_fires_once :
  forall (settings0 settings1 settings2 : SettingsT) (loading2 : bool)
         (q : jsstring) (cached : option CachedT) (st : State),
    UseHomePage.hasLoadedCache st = false ->
    UseHomePage.hasSearchedWithSourcesRef st = false ->
    JsString.blank q = false ->
    Step.hasSources enabled settings0 = false ->
    Step.hasSources enabled settings1 = true ->
    (forall c, cached = Some c ->
               Cached.query c <> q \/ Cached.results c = []) ->
    UseHomePage.loadCacheEffect enabled settings0 (Some q) cached st
    = (tt, Step.submitted q (Mount.afterUrlQuery q st)) /\
    UseHomePage.calls
      (snd (UseHomePage.updateSettings sortEqb enabled settings1 false
              (Step.submitted q (Mount.afterUrlQuery q st))))
    = UseHomePage.calls st
      ++ [UseHomePage.PerformSearch Result AvailableSource q
            (filter enabled (Settings.sources settings1))
            (Settings.sortBy settings1)] /\
    UseHomePage.calls
      (snd (UseHomePage.updateSettings sortEqb enabled settings2 loading2
              (snd (UseHomePage.updateSettings sortEqb enabled settings1 false
                      (Step.submitted q (Mount.afterUrlQuery q st))))))
    = UseHomePage.calls st
      ++ [UseHomePage.PerformSearch Result AvailableSource q
            (filter enabled (Settings.sources settings1))
            (Settings.sortBy settings1)].
Proof.
  intros settings0 settings1 settings2 loading2 q cached st
         Hl Hla Hq Hs0 Hs1 Hmiss.
  assert (Hne : q <> []) by (intros ->; discriminate).
  assert (H1 : UseHomePage.calls
                 (snd (UseHomePage.updateSettings sortEqb enabled settings1
                         false (Step.submitted q (Mount.afterUrlQuery q st))))
               = UseHomePage.calls st
                 ++ [UseHomePage.PerformSearch Result AvailableSource q
                       (filter enabled (Settings.sources settings1))
                       (Settings.sortBy settings1)]).
  { destruct (updateSettings_effect settings1 false
                (Step.submitted q (Mount.afterUrlQuery q st)))
      as (_ & Hc & _).
    rewrite Hc. simpl. rewrite Hq, Hs1, Hla. reflexivity. }
  repeat apply conj.
  - rewrite (@loadCacheEffect_miss settings0 q cached st Hl Hne Hmiss).
    rewrite handleSearch_run, Hq, Hs0. reflexivity.
  - exact H1.
  - destruct (updateSettings_effect settings2 loading2
                (snd (UseHomePage.updateSettings sortEqb enabled settings1
                        false (Step.submitted q (Mount.afterUrlQuery q st)))))
      as (_ & Hc & _).
    destruct (updateSettings_effect settings1 false
                (Step.submitted q (Mount.afterUrlQuery q st)))
      as (_ & _ & Hlatch & _).
    rewrite Hc, Hlatch, H1. simpl. rewrite Hq, Hs1. simpl.
    rewrite !andb_false_r. reflexivity.
Qed.

(** A session restored from the cache is not searched again by the
    settings bridge: after the restoration, no settings notification makes
    a call, whatever the settings and the loading flag. *)
Theorem restored_session_is_not_searched_again :
  forall (settings settings' : SettingsT) (loading' : bool) (q : jsstring)
         (c : CachedT) (st : State),
    UseHomePage.hasLoadedCache st = false ->
    q <> [] -> Cached.query c = q -> Cached.results c <> [] ->
    UseHomePage.calls
      (snd (UseHomePage.updateSettings sortEqb enabled settings' loading'
              (snd (UseHomePage.loadCacheEffect enabled settings (Some q)
                      (Some c) st))))
    = UseHomePage.calls st
      ++ [UseHomePage.LoadCachedResults SortOption Source
            (Cached.results c) (Cached.availableSources c)] /\
    UseHomePage.hasSearched
      (snd (UseHomePage.updateSettings sortEqb enabled settings' loading'
              (snd (UseHomePage.loadCacheEffect enabled settings (Some q)
                      (Some c) st))))
    = true.
Proof.
  intros settings settings' loading' q c st Hl Hq Hc Hr.
  rewrite (@loadCacheEffect_hit settings q c st Hl Hq Hc Hr). simpl.
  destruct (updateSettings_effect settings' loading' (Mount.restored q c st))
    as (_ & Hcalls & _ & Hhs).
  rewrite Hcalls, Hhs. simpl. rewrite !andb_false_r, orb_true_r.
  split; reflexivity.
Qed.

(** [handleReset] clears the query, [hasSearched] and the latch, keeps the
    one-shot flag and the sort preference, and calls the engine's reset and
    then the router.  After it a settings notification through a callback
    that holds the cleared query, or any blank query, makes no call; one
    through a callback that still holds an earlier non-blank query, with a
    source enabled and nothing loading, does call [performSearch] on that
    query and sets [hasSearched], the latch being cleared at once.  The
    restoration effect stays spent, and an idle page shows the popular
    features. *)
Theorem handleReset_returns_to_idle :
  forall (settings : SettingsT) (loading : bool)
         (urlQuery : option jsstring) (cached : option CachedT) (st : State),
    UseHomePage.query (snd (UseHomePage.handleReset st)) = [] /\
    UseHomePage.hasSearched (snd (UseHomePage.handleReset st)) = false /\
    UseHomePage.hasSearchedWithSourcesRef (snd (UseHomePage.handleReset st))
    = false /\
    UseHomePage.hasLoadedCache (snd (UseHomePage.handleReset st))
    = UseHomePage.hasLoadedCache st /\
    UseHomePage.currentSortBy (snd (UseHomePage.handleReset st))
    = UseHomePage.currentSortBy st /\
    UseHomePage.calls (snd (UseHomePage.handleReset st))
    = UseHomePage.calls st
      ++ [UseHomePage.ResetSearch SortOption Source Result AvailableSource;
          UseHomePage.RouterReplace SortOption Source Result AvailableSource
            (JsString.of_string "/")] /\
    UseHomePage.calls
      (snd (UseHomePage.updateSettings sortEqb enabled settings loading
              (snd (UseHomePage.handleReset st))))
    = UseHomePage.calls (snd (UseHomePage.handleReset st)) /\
    (forall capturedQuery capturedSortBy,
        JsString.blank capturedQuery = true ->
        UseHomePage.calls
          (snd (UseHomePage.updateSettingsCallback sortEqb enabled
                  capturedQuery capturedSortBy loading settings
                  (snd (UseHomePage.handleReset st))))
        = UseHomePage.calls (snd (UseHomePage.handleReset st))) /\
    (forall capturedQuery capturedSortBy,
        JsString.blank capturedQuery = false ->
        Step.hasSources enabled settings = true ->
        UseHomePage.calls
          (snd (UseHomePage.updateSettingsCallback sortEqb enabled
                  capturedQuery capturedSortBy false settings
                  (snd (UseHomePage.handleReset st))))
        = UseHomePage.calls (snd (UseHomePage.handleReset st))
          ++ [UseHomePage.PerformSearch Result AvailableSource capturedQuery
                (filter enabled (Settings.sources settings))
                (Settings.sortBy settings)] /\
        UseHomePage.hasSearched
          (snd (UseHomePage.updateSettingsCallback sortEqb enabled
                  capturedQuery capturedSortBy false settings
                  (snd (UseHomePage.handleReset st))))
        = true) /\
    (UseHomePage.hasLoadedCache st = true ->
     UseHomePage.loadCacheEffect enabled settings urlQuery cached
       (snd (UseHomePage.handleReset st))
     = (tt, snd (UseHomePage.handleReset st))) /\
    Page.showsPopularFeatures false
      (UseHomePage.hasSearched (snd (UseHomePage.handleReset st))) = true.
Proof.
  intros settings loading urlQuery cached st.
  repeat apply conj; try reflexivity.
  - simpl. rewrite <- app_assoc. reflexivity.
  - destruct (updateSettings_effect settings loading
                (snd (UseHomePage.handleReset st))) as (_ & Hc & _).
    rewrite Hc. reflexivity.
  - intros cq cs Hb.
    destruct (updateSettingsCallback_effect sortEqb enabled cq cs loading
                settings (snd (UseHomePage.handleReset st)))
      as (_ & _ & _ & Hc & _).
    rewrite Hc, Hb. reflexivity.
  - intros cq cs Hb Hs.
    destruct (updateSettingsCallback_effect sortEqb enabled cq cs false
                settings (snd (UseHomePage.handleReset st)))
      as (_ & _ & _ & Hc & _ & Hh).
    rewrite Hc, Hh, Hb, Hs. split; reflexivity.
  - intros H. unfold UseHomePage.loadCacheEffect, UseHomePage.bind,
      UseHomePage.getState.
    simpl. rewrite H. reflexivity.
Qed.

(** On a query that is not blank [handleSearch] always sets the query and
    [hasSearched], with or without an enabled source; it calls
    [performSearch] exactly when a source is enabled, whatever the latch,
    so a repeated search is issued again.  Without an enabled source the
    idle page with no results shows the no-results panel. *)
Theorem handleSearch_submits_query :
  forall (settings : SettingsT) (q : jsstring) (st : State),
    JsString.blank q = false ->
    UseHomePage.query (snd (UseHomePage.handleSearch enabled settings q st))
    = q /\
    UseHomePage.hasSearched
      (snd (UseHomePage.handleSearch enabled settings q st)) = true /\
    UseHomePage.calls (snd (UseHomePage.handleSearch enabled settings q st))
    = (if Step.hasSources enabled settings
       then UseHomePage.calls st
            ++ [UseHomePage.PerformSearch Result AvailableSource q
                  (filter enabled (Settings.sources settings))
                  (Settings.sortBy settings)]
       else UseHomePage.calls st) /\
    UseHomePage.hasSearchedWithSourcesRef
      (snd (UseHomePage.handleSearch enabled settings q st))
    = (Step.hasSources enabled settings
       || UseHomePage.hasSearchedWithSourcesRef st) /\
    Page.showsNoResults false
      (UseHomePage.hasSearched
         (snd (UseHomePage.handleSearch enabled settings q st))) 0 = true.
Proof.
  intros settings q st Hq. rewrite handleSearch_run, Hq.
  destruct (Step.hasSources enabled settings); simpl; repeat split.
Qed.

End ControllerScenarios.

(** ** The page *)

(** The results panel is rendered exactly when there are results.  The
    no-results panel is never rendered together with the results panel or
    the popular features.  An idle page renders at least one of the three
    panels; a loading page without results renders none. *)
Theorem page_panels :
  forall (loading hasSearched : bool) (nresults : nat),
    Page.showsSearchResults loading nresults = (0 <? nresults) /\
    (Page.showsNoResults loading hasSearched nresults = true ->
     Page.showsSearchResults loading nresults = false /\
     Page.showsPopularFeatures loading hasSearched = false) /\
    (loading = false ->
     Page.showsSearchResults loading nresults
     || Page.showsPopularFeatures loading hasSearched
     || Page.showsNoResults loading hasSearched nresults = true) /\
    (loading = true -> nresults = 0 ->
     Page.showsSearchResults loading nresults = false /\
     Page.showsPopularFeatures loading hasSearched = false /\
     Page.showsNoResults loading hasSearched nresults = false).
Proof.
  intros loading hasSearched nresults.
  unfold Page.showsSearchResults, Page.showsPopularFeatures,
    Page.showsNoResults.
  destruct loading, hasSearched, nresults as [|n]; simpl;
    repeat split; intros; try reflexivity; try discriminate.
Qed.

(** ** Instances of the further properties *)

Lemma sample_selection_wf :
  JsSet.wf [JsString.of_string "X"; JsString.of_string "Y"].
Proof. repeat constructor; simpl; intuition discriminate. Qed.

Lemma sample_selection_clean :
  forall x, In x [JsString.of_string "X"; JsString.of_string "Y"] ->
            x <> [] /\ ~ In JsString.comma x.
Proof.
  intros x [<-|[<-|[]]]; split; try discriminate; simpl; intuition discriminate.
Qed.

Lemma sample_selection_well_formed :
  forall x, In x [JsString.of_string "X"; JsString.of_string "Y"] ->
            x <> [] /\ ~ In JsString.comma x
            /\ UrlSearchParams.isWellFormed x = true.
Proof.
  intros x [<-|[<-|[]]]; repeat split; try discriminate;
    simpl; intuition discriminate.
Qed.

Lemma url_round_trip_well_formed_without_commas_witness :
  exists params',
    UrlSync.syncEffect UrlSync.typesKey false
      [(UrlSync.qKey, JsString.of_string "cats")]
      [JsString.of_string "X"; JsString.of_string "Y"]
    = (false, Some params') /\
    UrlSync.initialSelection UrlSync.typesKey params'
    = [JsString.of_string "X"; JsString.of_string "Y"].
Proof.
  destruct (@url_round_trip_well_formed_without_commas UrlSync.typesKey
              [(UrlSync.qKey, JsString.of_string "cats")] _
              sample_selection_well_formed)
    as (params' & Hs & _ & _ & Hsame & _).
  exists params'. split; [exact Hs|].
  apply Hsame, sample_selection_wf.
Defined.

Lemma urlChange_updates_iff_differs_and_sync_navigates_witness :
  Facet.urlChangeUpdate (Some (JsString.of_string "b,,a"))
    [JsString.of_string "X"; JsString.of_string "Y"]
  = Some [JsString.of_string "b"; JsString.of_string "a"] /\
  exists params',
    UrlSync.effectsOnUrlChange UrlSync.sourcesKey false
      [(UrlSync.sourcesKey, JsString.of_string "b,,a")]
      [JsString.of_string "X"; JsString.of_string "Y"]
    = ((false, Some params'),
       Facet.urlChangeUpdate
         (UrlSearchParams.get UrlSync.sourcesKey
            [(UrlSync.sourcesKey, JsString.of_string "b,,a")])
         [JsString.of_string "X"; JsString.of_string "Y"]).
Proof.
  destruct (@urlChange_updates_iff_differs_and_sync_navigates
              (Some (JsString.of_string "b,,a")) UrlSync.sourcesKey
              [(UrlSync.sourcesKey, JsString.of_string "b,,a")] _
              sample_selection_wf)
    as (H1 & _ & _ & _ & _ & params' & Hnav & _).
  split.
  - apply H1. intros H. specialize (H (JsString.of_string "X")).
    discriminate.
  - exists params'. exact Hnav.
Defined.

Lemma urlChange_converges_witness :
  Facet.urlChangeUpdate (Some (JsString.of_string "Y,Z"))
    (Facet.urlChange (Some (JsString.of_string "Y,Z"))
       [JsString.of_string "X"; JsString.of_string "Y"]) = None.
Proof.
  destruct (urlChange_converges (Some (JsString.of_string "Y,Z"))
              sample_selection_wf) as (_ & _ & H).
  exact H.
Defined.

Lemma toggle_changes_size_by_one_witness :
  Facet.toggle (JsString.of_string "Z")
    [JsString.of_string "X"; JsString.of_string "Y"]
  = [JsString.of_string "X"; JsString.of_string "Y"; JsString.of_string "Z"]
  /\
  S (JsSet.size (Facet.toggle (JsString.of_string "X")
                   [JsString.of_string "X"; JsString.of_string "Y"]))
  = 2.
Proof.
  destruct (toggle_changes_size_by_one (JsString.of_string "Z")
              sample_selection_wf) as (Ha & _).
  destruct (toggle_changes_size_by_one (JsString.of_string "X")
              sample_selection_wf) as (_ & Hp).
  split.
  - apply Ha. reflexivity.
  - apply Hp. reflexivity.
Defined.

Lemma autoCleanup_keeps_order_idempotent_witness :
  Facet.autoCleanup [JsString.of_string "Y"; JsString.of_string "Z"]
    [JsString.of_string "X"; JsString.of_string "Y"]
  = [JsString.of_string "Y"].
Proof.
  assert (Hne : [JsString.of_string "Y"; JsString.of_string "Z"] <> [])
    by discriminate.
  destruct (autoCleanup_keeps_order_idempotent sample_selection_wf Hne)
    as (H & _).
  rewrite H. reflexivity.
Defined.

Lemma sync_then_urlChange_is_quiet_witness :
  UrlSync.urlChangeEffect UrlSync.sourcesKey
    [(UrlSync.qKey, JsString.of_string "cats");
     (UrlSync.sourcesKey, JsString.of_string "X,Y")]
    [JsString.of_string "X"; JsString.of_string "Y"] = None.
Proof.
  assert (Hs : UrlSync.syncEffect UrlSync.sourcesKey false
                 [(UrlSync.qKey, JsString.of_string "cats")]
                 [JsString.of_string "X"; JsString.of_string "Y"]
               = (false,
                  Some [(UrlSync.qKey, JsString.of_string "cats");
                        (UrlSync.sourcesKey, JsString.of_string "X,Y")]))
    by reflexivity.
  destruct (@sync_then_urlChange_is_quiet UrlSync.sourcesKey
              [(UrlSync.qKey, JsString.of_string "cats")] _ _
              sample_selection_wf sample_selection_well_formed Hs)
    as (H & _).
  exact H.
Defined.

Lemma cleaned_selection_matches_items_witness :
  UseTypeBadges.filteredVideos Sample.type_name
    [Sample.ofType "show"; Sample.ofType " movie"]
    (UseTypeBadges.autoCleanup
       (UseTypeBadges.typeBadges Sample.type_name
          [Sample.ofType "show"; Sample.ofType " movie"])
       [JsString.of_string "movie"; JsString.of_string "gone"]) <> [].
Proof.
  assert (Hne : UseTypeBadges.typeBadges Sample.type_name
                  [Sample.ofType "show"; Sample.ofType " movie"] <> [])
    by discriminate.
  destruct (cleaned_selection_matches_items Sample.type_name
              [Sample.ofType "show"; Sample.ofType " movie"]
              [JsString.of_string "movie"; JsString.of_string "gone"] Hne)
    as (_ & H).
  apply H. discriminate.
Defined.

Lemma performSearch_only_when_searchable_witness :
  forallb (Trace.sound Sample.enabled)
    (UseHomePage.calls
       (snd (UseHomePage.handleSearch Sample.enabled
               (Sample.settingsOf [Sample.sourceOff; Sample.sourceX])
               (JsString.of_string "cats") Sample.mounted))) = true.
Proof.
  destruct (performSearch_only_when_searchable Sample.sortEqb Sample.enabled
              (Sample.settingsOf [Sample.sourceOff; Sample.sourceX])
              (JsString.of_string "cats") None None false 0
              Sample.mounted eq_refl) as (_ & H & _).
  exact H.
Defined.

Lemma sample_sortEqb_eq :
  forall a b, Sample.sortEqb a b = true <-> a = b.
Proof. intros [|] [|]; simpl; split; congruence. Qed.

Lemma updateSettingsCallback_fires_pending_search_witness :
  UseHomePage.calls
    (snd (UseHomePage.updateSettingsCallback Sample.sortEqb Sample.enabled
            (JsString.of_string "cats") Sample.default false
            (Sample.settingsOf [Sample.sourceX])
            (snd (UseHomePage.handleReset
                    (Step.submitted (JsString.of_string "cats")
                       Sample.mounted)))))
  = [UseHomePage.ResetSearch Sample.SortOption Sample.Source Sample.Video
       Sample.SourceBadge;
     UseHomePage.RouterReplace Sample.SortOption Sample.Source Sample.Video
       Sample.SourceBadge (JsString.of_string "/");
     UseHomePage.PerformSearch Sample.Video Sample.SourceBadge
       (JsString.of_string "cats") [Sample.sourceX] Sample.default].
Proof.
  destruct (@updateSettingsCallback_fires_pending_search _ Sample.sortEqb _
              Sample.enabled _ _
              (JsString.of_string "cats") Sample.default false
              (Sample.settingsOf [Sample.sourceX])
              (snd (UseHomePage.handleReset
                      (Step.submitted (JsString.of_string "cats")
                         Sample.mounted)))
              sample_sortEqb_eq) as (_ & _ & _ & _ & H & _).
  destruct (H eq_refl) as (Hc & _). exact Hc.
Defined.

Lemma deferred_search_fires_once_witness :
  UseHomePage.loadCacheEffect Sample.enabled
    (Sample.settingsOf [Sample.sourceOff])
    (Some (JsString.of_string "cats")) (Some Sample.dogsBundle) Sample.mounted
  = (tt,
     Step.submitted (JsString.of_string "cats")
       (Mount.afterUrlQuery (JsString.of_string "cats") Sample.mounted)).
Proof.
  assert (Hmiss : forall c,
             Some Sample.dogsBundle = Some c ->
             Cached.query c <> JsString.of_string "cats"
             \/ Cached.results c = []).
  { intros c H. injection H as <-. left. discriminate. }
  destruct (@deferred_search_fires_once _ Sample.sortEqb _ Sample.enabled _ _
              (Sample.settingsOf [Sample.sourceOff])
              (Sample.settingsOf [Sample.sourceX])
              (Sample.settingsOf []) true
              (JsString.of_string "cats") (Some Sample.dogsBundle)
              Sample.mounted eq_refl eq_refl eq_refl eq_refl eq_refl Hmiss)
    as (H & _).
  exact H.
Defined.

Lemma restored_session_is_not_searched_again_witness :
  UseHomePage.calls
    (snd (UseHomePage.updateSettings Sample.sortEqb Sample.enabled
            (Sample.settingsOf [Sample.sourceX]) false
            (snd (UseHomePage.loadCacheEffect Sample.enabled
                    (Sample.settingsOf [])
                    (Some (JsString.of_string "dogs"))
                    (Some Sample.dogsBundle) Sample.mounted))))
  = [UseHomePage.LoadCachedResults Sample.SortOption Sample.Source
       (Cached.results Sample.dogsBundle)
       (Cached.availableSources Sample.dogsBundle)].
Proof.
  assert (Hq : JsString.of_string "dogs" <> []) by discriminate.
  assert (Hr : Cached.results Sample.dogsBundle <> []) by discriminate.
  destruct (@restored_session_is_not_searched_again _ Sample.sortEqb _
              Sample.enabled _ _
              (Sample.settingsOf []) (Sample.settingsOf [Sample.sourceX])
              false (JsString.of_string "dogs") Sample.dogsBundle
              Sample.mounted eq_refl Hq eq_refl Hr) as (H & _).
  exact H.
Defined.

Lemma handleSearch_submits_query_witness :
  UseHomePage.query
    (snd (UseHomePage.handleSearch Sample.enabled
            (Sample.settingsOf [Sample.sourceOff])
            (JsString.of_string "cats") Sample.mounted))
  = JsString.of_string "cats".
Proof.
  destruct (@handleSearch_submits_query _ _ Sample.enabled _ _
              (Sample.settingsOf [Sample.sourceOff])
              (JsString.of_string "cats") Sample.mounted eq_refl) as (H & _).
  exact H.
Defined.
